(** * Attenuation-with-distance trellis plots: DistanceIMTTrellis.py

    A shallow embedding of the two plotting classes of
    [DistanceIMTTrellis.py] and of the standard-deviation value collector,
    followed by the properties of the collector, of the renderers and of
    the label policy.

    Conventions of the embedding.
    - Python exceptions are values of [exn]; a computation is a function
      from a state to the state it leaves behind and either a value or the
      exception it raised ([M]).  The state survives a raise, as the
      mutated objects do in Python.
    - numpy float64 values are rationals ([float]).  The code never
      computes on them: it stores, copies and orders them.
    - The hazard library (GMPE objects, the intensity-measure parser, the
      site and rupture contexts) is external: its types are parameters and
      its entry points are fields and section variables.
    - The matplotlib axes object is the record [Axes]; every drawn line
      remembers the draw method that produced it. *)

From Stdlib Require Import QArith Qminmax Sorted.
From stdpp Require Import gmap strings list fin_maps.

Set Default Proof Using "Type".

(** ** Python values and exceptions *)

Abbreviation float := Q (only parsing).

Inductive exn : Type :=
| KeyError (key : string)
| AttributeError (attr : string)
| AssertionError
| TypeError
| IndexError
| ValueError
| OtherError (cls msg : string).

(** [except KeyError] matches exactly the first constructor; [OtherError]
    stands for the exception classes that are not listed here and do not
    derive from [KeyError]. *)
Definition is_KeyError (e : exn) : bool :=
  match e with
  | KeyError _ => true
  | _ => false
  end.

Inductive result (A : Type) : Type :=
| Ok (a : A)
| Raise (e : exn).

Arguments Ok {A} a.
Arguments Raise {A} e.

(** ** State and exception monad *)

Definition M (St A : Type) : Type := St -> St * result A.

Definition ret {St A} (a : A) : M St A := fun s => (s, Ok a).

Definition raise {St A} (e : exn) : M St A := fun s => (s, Raise e).

Definition bind {St A B} (m : M St A) (k : A -> M St B) : M St B :=
  fun s =>
    match m s with
    | (s', Ok a) => k a s'
    | (s', Raise e) => (s', Raise e)
    end.

Declare Scope py_scope.
Delimit Scope py_scope with py.
Notation "'let*' x ':=' m 'in' k" := (bind m (fun x => k))
  (at level 10, x name, m at level 100, k at level 200, only parsing) : py_scope.
Notation "m ;;; k" := (bind m (fun _ => k))
  (at level 100, k at level 200, right associativity, only parsing) : py_scope.
Open Scope py_scope.

Definition gets {St A} (f : St -> A) : M St A := fun s => (s, Ok (f s)).

Definition modify {St} (f : St -> St) : M St unit := fun s => (f s, Ok tt).

Definition lift {St A} (r : result A) : M St A := fun s => (s, r).

(** [try: body except KeyError: handler] *)
Definition try_except_KeyError {St A} (body handler : M St A) : M St A :=
  fun s =>
    match body s with
    | (s', Ok a) => (s', Ok a)
    | (s', Raise e) => if is_KeyError e then handler s' else (s', Raise e)
    end.

(** [for x in xs: body] *)
Fixpoint for_each {St A} (xs : list A) (body : A -> M St unit) : M St unit :=
  match xs with
  | [] => ret tt
  | x :: xs' => body x ;;; for_each xs' body
  end.

Inductive flow : Type := Continue | Break.

(** [for i, x in enumerate(xs): body], where the body may [break];
    [i] is the index of the first element of [xs]. *)
Fixpoint for_enumerate {St A} (i : nat) (xs : list A)
    (body : nat -> A -> M St flow) : M St unit :=
  match xs with
  | [] => ret tt
  | x :: xs' =>
      let* f := body i x in
      match f with
      | Break => ret tt
      | Continue => for_enumerate (S i) xs' body
      end
  end.

Definition python_assert {St} (b : bool) : M St unit :=
  if b then ret tt else raise AssertionError.

(** ** numpy arrays and the entries of the value table *)

(** An entry of the value table is either a 2-D float array, kept as the
    list of its rows, or the Python list [[]] that the collector stores for
    an unsupported combination. *)
Inductive entry : Type :=
| NDArray (rows : list (list float))
| EmptyList.

(** [np.zeros([nrows, ncols], dtype=float)] *)
Definition np_zeros (nrows ncols : nat) : entry :=
  NDArray (replicate nrows (replicate ncols 0%Q)).

(** [e[0, :]]: row 0 of a 2-D array; an array without rows has no index 0,
    and a Python list does not take a tuple index. *)
Definition getitem_row0 (e : entry) : result (list float) :=
  match e with
  | NDArray (r :: _) => Ok r
  | NDArray [] => Raise IndexError
  | EmptyList => Raise TypeError
  end.

(** Broadcasting of a 1-D value to a row of [n] columns: the lengths agree,
    or the value has one element, which is repeated. *)
Definition broadcast_to (v : list float) (n : nat) : result (list float) :=
  if Nat.eqb (length v) n then Ok v
  else match v with
       | [x] => Ok (replicate n x)
       | _ => Raise ValueError
       end.

(** [a[iloc, :] = v] on the rows of a 2-D array *)
Definition array_set_row (rows : list (list float)) (iloc : nat) (v : list float)
    : result (list (list float)) :=
  match rows !! iloc with
  | Some old =>
      match broadcast_to v (length old) with
      | Ok r => Ok (<[iloc := r]> rows)
      | Raise e => Raise e
      end
  | None => Raise IndexError
  end.

(** [e[iloc, :] = v] *)
Definition setitem_row (e : entry) (iloc : nat) (v : list float) : result entry :=
  match e with
  | NDArray rows =>
      match array_set_row rows iloc v with
      | Ok rows' => Ok (NDArray rows')
      | Raise e => Raise e
      end
  | EmptyList => Raise TypeError
  end.

(** [xs[0]] and [xs[-1]] *)
Definition getitem_first {A} (xs : list A) : result A :=
  match head xs with
  | Some x => Ok x
  | None => Raise IndexError
  end.

Definition getitem_last {A} (xs : list A) : result A :=
  match last xs with
  | Some x => Ok x
  | None => Raise IndexError
  end.

(** ** Dictionaries *)

(** [d[k]] on a plain dict *)
Definition dict_getitem {V} (d : gmap string V) (k : string) : result V :=
  match d !! k with
  | Some v => Ok v
  | None => Raise (KeyError k)
  end.

(** An [OrderedDict] is an association list in insertion order with unique
    keys. *)
Definition OrderedDict (V : Type) : Type := list (string * V).

Fixpoint od_lookup {V} (k : string) (d : OrderedDict V) : option V :=
  match d with
  | [] => None
  | (k', v) :: d' => if String.eqb k k' then Some v else od_lookup k d'
  end.

(** [d[k] = v] and [d.update([(k, v)])]: an existing key keeps its place. *)
Fixpoint od_set {V} (k : string) (v : V) (d : OrderedDict V) : OrderedDict V :=
  match d with
  | [] => [(k, v)]
  | (k', v') :: d' =>
      if String.eqb k k' then (k, v) :: d' else (k', v') :: od_set k v d'
  end.

Definition od_getitem {V} (d : OrderedDict V) (k : string) : result V :=
  match od_lookup k d with
  | Some v => Ok v
  | None => Raise (KeyError k)
  end.

(** The ground-motion value table: GMPE class name, then intensity
    measure. *)
Abbreviation Table := (OrderedDict (gmap string entry)) (only parsing).

(** [gmvs[name][i_m]] *)
Definition table_getitem (gmvs : Table) (name i_m : string) : result entry :=
  match od_getitem gmvs name with
  | Ok d => dict_getitem d i_m
  | Raise e => Raise e
  end.

(** [gmvs[name][i_m][0, :]] *)
Definition table_row0 (gmvs : Table) (name i_m : string) : result (list float) :=
  match table_getitem gmvs name i_m with
  | Ok e => getitem_row0 e
  | Raise e => Raise e
  end.

(** ** Module constants *)

Definition PLOT_UNITS : gmap string string :=
  <["PGA" := "g"]> (<["PGV" := "cm/s"]> (<["SA" := "g"]> (<["IA" := "m/s"]>
  (<["CSV" := "g-sec"]> (<["RSD" := "s"]> (<["MMI" := ""]> ∅)))))).

Definition DISTANCE_LABEL_MAP : gmap string string :=
  <["repi" := "Epicentral Dist."]> (<["rhypo" := "Hypocentral Dist."]>
  (<["rjb" := "Joyner-Boore Dist."]> (<["rrup" := "Rupture Dist."]>
  (<["rx" := "Rx Dist."]> ∅)))).

(** [sub in s] on strings *)
Fixpoint str_contains (sub s : string) : bool :=
  String.prefix sub s ||
  match s with
  | EmptyString => false
  | String _ s' => str_contains sub s'
  end.

(** ** The charting surface *)

(** The four draw calls of the axes object. *)
Inductive draw_method : Type := plot | semilogx | semilogy | loglog.

Record Line2D : Type := mkLine {
  drawn_by : draw_method;
  xdata : list float;
  ydata : list float;
  fmt : string;
  linewidth : float;
  label : string
}.

(** The axes object is only ever written to.  It is modelled by the calls
    made on it: the lines drawn, and the arguments of the latest [grid],
    [set_xlim], [set_xlabel] and [set_ylabel] call ([None] while there was
    none).  What the charting library displays for these requests is not
    part of the program and is not modelled.  In particular
    [ax_xlim_request] is the pair of bounds handed to [set_xlim], not the
    view limits of the axes: the library ignores a non-positive bound on a
    logarithmic x axis and widens two equal bounds. *)
Record Axes : Type := mkAxes {
  ax_lines : list Line2D;
  ax_grid : bool;
  ax_xlim_request : option (float * float);
  ax_xlabel : option (string * nat);
  ax_ylabel : option (string * nat)
}.

Definition new_axes : Axes := mkAxes [] false None None None.

(** The attributes of [self] that plotting writes, and the axes drawn on. *)
Record PlotState : Type := mkPlotState {
  labels : list string;
  lines : list Line2D;
  ax : Axes
}.

Definition with_labels (ls : list string) (s : PlotState) : PlotState :=
  mkPlotState ls (lines s) (ax s).

Definition with_lines (ls : list Line2D) (s : PlotState) : PlotState :=
  mkPlotState (labels s) ls (ax s).

Definition with_ax (f : Axes -> Axes) (s : PlotState) : PlotState :=
  mkPlotState (labels s) (lines s) (f (ax s)).

(** [ax.<method>(x, y, fmt, linewidth=lw, label=lbl)]: the surface refuses
    data of different lengths; otherwise it adds the line and returns it. *)
Definition ax_draw (m : draw_method) (x y : list float) (f : string)
    (lw : float) (lbl : string) : M PlotState Line2D :=
  if Nat.eqb (length x) (length y) then
    let l := mkLine m x y f lw lbl in
    modify (with_ax (fun a =>
      mkAxes (ax_lines a ++ [l]) (ax_grid a) (ax_xlim_request a) (ax_xlabel a) (ax_ylabel a))) ;;;
    ret l
  else raise ValueError.

Definition ax_set_grid (b : bool) : M PlotState unit :=
  modify (with_ax (fun a =>
    mkAxes (ax_lines a) b (ax_xlim_request a) (ax_xlabel a) (ax_ylabel a))).

(** [ax.set_xlim(lo, hi)]: the request is recorded with its two arguments. *)
Definition ax_set_xlim (lo hi : float) : M PlotState unit :=
  modify (with_ax (fun a =>
    mkAxes (ax_lines a) (ax_grid a) (Some (lo, hi)) (ax_xlabel a) (ax_ylabel a))).

Definition ax_set_xlabel (text : string) (fontsize : nat) : M PlotState unit :=
  modify (with_ax (fun a =>
    mkAxes (ax_lines a) (ax_grid a) (ax_xlim_request a) (Some (text, fontsize)) (ax_ylabel a))).

Definition ax_set_ylabel (text : string) (fontsize : nat) : M PlotState unit :=
  modify (with_ax (fun a =>
    mkAxes (ax_lines a) (ax_grid a) (ax_xlim_request a) (ax_xlabel a) (Some (text, fontsize)))).

(** ** The hazard library and the trellis object *)

(** A distances context is an object whose attributes are the distance
    arrays that were set on it. *)
Abbreviation DistancesContext := (gmap string (list float)) (only parsing).

(** [getattr(dctx, name)] *)
Definition getattr (dctx : DistancesContext) (name : string) : result (list float) :=
  match dctx !! name with
  | Some v => Ok v
  | None => Raise (AttributeError name)
  end.

Section Hazardlib.

Variables SitesContext RuptureContext IMT : Type.

(** A GMPE object: [gmpe.__class__.__name__] and its evaluation entry
    point, which returns the mean array and the list of standard-deviation
    arrays, or raises. *)
Record GMPE : Type := mkGMPE {
  class_name : string;
  get_mean_and_stddevs :
    SitesContext -> RuptureContext -> DistancesContext -> IMT -> list string ->
    result (list float * list (list float))
}.

(** The attributes of [self] that the methods below only read. *)
Record Trellis : Type := mkTrellis {
  gsims : list GMPE;
  imts : list string;
  rctx : list RuptureContext;
  sctx : SitesContext;
  dctx : DistancesContext;
  nsites : nat;
  stddevs : string;
  distance_type : string;
  plot_type : string
}.

End Hazardlib.

Arguments class_name {SitesContext RuptureContext IMT} _.
Arguments get_mean_and_stddevs {SitesContext RuptureContext IMT} _ _ _ _ _ _.
Arguments gsims {SitesContext RuptureContext IMT} _.
Arguments imts {SitesContext RuptureContext IMT} _.
Arguments rctx {SitesContext RuptureContext IMT} _.
Arguments sctx {SitesContext RuptureContext IMT} _.
Arguments dctx {SitesContext RuptureContext IMT} _.
Arguments nsites {SitesContext RuptureContext IMT} _.
Arguments stddevs {SitesContext RuptureContext IMT} _.
Arguments distance_type {SitesContext RuptureContext IMT} _.
Arguments plot_type {SitesContext RuptureContext IMT} _.

(** ** class DistanceIMTTrellis *)

Module DistanceIMTTrellis.
Section Methods.

Context {SitesContext RuptureContext IMT : Type}.
#[local] Abbreviation Trellis := (Trellis SitesContext RuptureContext IMT).

Definition _set_labels (self : Trellis) (i_m : string) : M PlotState unit :=
  let* name := lift (dict_getitem DISTANCE_LABEL_MAP (distance_type self)) in
  ax_set_xlabel (name +:+ " (km)") 16 ;;;
  let* units := lift (if str_contains "SA(" i_m
                      then dict_getitem PLOT_UNITS "SA"
                      else dict_getitem PLOT_UNITS i_m) in
  ax_set_ylabel ("Median " +:+ i_m +:+ " (" +:+ units +:+ ")") 16.

Definition _build_plot (self : Trellis) (i_m : string) (gmvs : Table)
    : M PlotState unit :=
  modify (with_labels []) ;;;
  modify (with_lines []) ;;;
  let* distance_vals := lift (getattr (dctx self) (distance_type self)) in
  python_assert (String.eqb (plot_type self) "loglog"
                 || String.eqb (plot_type self) "semilogy") ;;;
  for_each (gsims self) (fun gmpe =>
    modify (fun s => with_labels (labels s ++ [class_name gmpe]) s) ;;;
    let* drawn :=
      (if String.eqb (plot_type self) "semilogy" then
         let* y := lift (table_row0 gmvs (class_name gmpe) i_m) in
         let* line := ax_draw semilogy distance_vals y "-" 2 (class_name gmpe) in
         let* min_x := lift (getitem_first distance_vals) in
         let* max_x := lift (getitem_last distance_vals) in
         ret (line, min_x, max_x)
       else
         let* y := lift (table_row0 gmvs (class_name gmpe) i_m) in
         let* line := ax_draw loglog distance_vals y "-" 2 (class_name gmpe) in
         let* min_x := lift (getitem_first distance_vals) in
         let* max_x := lift (getitem_last distance_vals) in
         ret (line, min_x, max_x)) in
    modify (fun s => with_lines (lines s ++ [drawn.1.1]) s) ;;;
    ax_set_grid true ;;;
    ax_set_xlim drawn.1.2 drawn.2 ;;;
    _set_labels self i_m).

End Methods.
End DistanceIMTTrellis.

(** ** class DistanceSigmaIMTTrellis *)

(** The state of the value collector: the table under construction and the
    evaluation calls made so far, each recorded as the GMPE class name, the
    intensity measure and the row index [iloc]. *)
Record CollectorState : Type := mkCollectorState {
  gmvs_of : OrderedDict (gmap string entry);
  calls : list (string * string * nat)
}.

Definition with_gmvs (f : Table -> Table) (s : CollectorState) : CollectorState :=
  mkCollectorState (f (gmvs_of s)) (calls s).

(** [gmvs[name][i_m] = e] *)
Definition table_setitem (name i_m : string) (e : entry) : M CollectorState unit :=
  let* d := (fun s => (s, od_getitem (gmvs_of s) name)) in
  modify (with_gmvs (od_set name (<[i_m := e]> d))).

Module DistanceSigmaIMTTrellis.
Section Methods.

Context {SitesContext RuptureContext IMT : Type}.
#[local] Abbreviation Trellis := (Trellis SitesContext RuptureContext IMT).
#[local] Abbreviation GMPE := (GMPE SitesContext RuptureContext IMT).

(** [imt.from_string] of the hazard library *)
Variable from_string : string -> result IMT.

(** The call [gmpe.get_mean_and_stddevs(...)] with its arguments evaluated
    in order; the call itself is recorded. *)
Definition call_get_mean_and_stddevs (self : Trellis) (gmpe : GMPE)
    (i_m : string) (iloc : nat) (rct : RuptureContext)
    : M CollectorState (list float * list (list float)) :=
  let* im := lift (from_string i_m) in
  modify (fun s => mkCollectorState (gmvs_of s)
                     (calls s ++ [(class_name gmpe, i_m, iloc)])) ;;;
  lift (get_mean_and_stddevs gmpe (sctx self) rct (dctx self) im [stddevs self]).

Definition get_ground_motion_values (self : Trellis) : M CollectorState Table :=
  modify (with_gmvs (fun _ => [])) ;;;
  for_each (gsims self) (fun gmpe =>
    modify (with_gmvs (od_set (class_name gmpe) ∅)) ;;;
    for_each (imts self) (fun i_m =>
      table_setitem (class_name gmpe) i_m
        (np_zeros (length (rctx self)) (nsites self)) ;;;
      for_enumerate 0 (rctx self) (fun iloc rct =>
        try_except_KeyError
          (let* res := call_get_mean_and_stddevs self gmpe i_m iloc rct in
           let* sigma0 := lift (getitem_first res.2) in
           let* arr := (fun s => (s, table_getitem (gmvs_of s) (class_name gmpe) i_m)) in
           let* arr' := lift (setitem_row arr iloc sigma0) in
           table_setitem (class_name gmpe) i_m arr' ;;;
           ret Continue)
          (table_setitem (class_name gmpe) i_m EmptyList ;;;
           ret Break)))) ;;;
  gets gmvs_of.

Definition _set_labels (self : Trellis) (i_m : string) : M PlotState unit :=
  let* name := lift (dict_getitem DISTANCE_LABEL_MAP (distance_type self)) in
  ax_set_xlabel (name +:+ " (km)") 16 ;;;
  ax_set_ylabel (stddevs self +:+ " Std. Dev.") 16.

Definition _build_plot (self : Trellis) (i_m : string) (gmvs : Table)
    : M PlotState unit :=
  modify (with_labels []) ;;;
  modify (with_lines []) ;;;
  let* distance_vals := lift (getattr (dctx self) (distance_type self)) in
  python_assert (String.eqb (plot_type self) "loglog"
                 || String.eqb (plot_type self) "semilogy") ;;;
  for_each (gsims self) (fun gmpe =>
    modify (fun s => with_labels (labels s ++ [class_name gmpe]) s) ;;;
    let* drawn :=
      (if String.eqb (plot_type self) "loglog" then
         let* y := lift (table_row0 gmvs (class_name gmpe) i_m) in
         let* line := ax_draw semilogx distance_vals y "-" 2 (class_name gmpe) in
         let* min_x := lift (getitem_first distance_vals) in
         let* max_x := lift (getitem_last distance_vals) in
         ret (line, min_x, max_x)
       else
         let* y := lift (table_row0 gmvs (class_name gmpe) i_m) in
         let* line := ax_draw plot distance_vals y "-" 2 (class_name gmpe) in
         let* min_x := lift (getitem_first distance_vals) in
         let* max_x := lift (getitem_last distance_vals) in
         ret (line, min_x, max_x)) in
    modify (fun s => with_lines (lines s ++ [drawn.1.1]) s) ;;;
    ax_set_grid true ;;;
    ax_set_xlim drawn.1.2 drawn.2 ;;;
    _set_labels self i_m).

End Methods.
End DistanceSigmaIMTTrellis.

(** * Auxiliary definitions for the statements and proofs *)

(** ** One iteration of the plotting loops

    Both [_build_plot] methods run the same iteration and differ in the
    draw method and in the [_set_labels] they dispatch to. *)

Definition plot_step (m : draw_method) (set_labels : M PlotState unit)
    (distance_vals : list float) (gmvs : Table) (i_m name : string)
    : M PlotState unit :=
  modify (fun s => with_labels (labels s ++ [name]) s) ;;;
  let* y := lift (table_row0 gmvs name i_m) in
  let* line := ax_draw m distance_vals y "-" 2 name in
  let* min_x := lift (getitem_first distance_vals) in
  let* max_x := lift (getitem_last distance_vals) in
  modify (fun s => with_lines (lines s ++ [line]) s) ;;;
  ax_set_grid true ;;;
  ax_set_xlim min_x max_x ;;;
  set_labels.

(** The draw method each class selects for a plot-scale string. *)
Definition mean_method (plot_type : string) : draw_method :=
  if String.eqb plot_type "semilogy" then semilogy else loglog.

Definition sigma_method (plot_type : string) : draw_method :=
  if String.eqb plot_type "loglog" then semilogx else plot.

(** The state a plotting call leaves behind when it stops before the loop. *)
Definition reset_lists (s : PlotState) : PlotState :=
  with_lines [] (with_labels [] s).

(** The state an iteration reaches just before it sets the labels: the
    GMPE name and the line handle are appended, the line is on the axes,
    the grid is on and the x-limits [lo] and [hi] have been requested. *)
Definition after_draw (l : Line2D) (lo hi : float) (s : PlotState) : PlotState :=
  mkPlotState (labels s ++ [label l]) (lines s ++ [l])
    (mkAxes (ax_lines (ax s) ++ [l]) true (Some (lo, hi))
            (ax_xlabel (ax s)) (ax_ylabel (ax s))).

(** The axes with both labels set, at font size 16. *)
Definition labelled (xtext ytext : string) (s : PlotState) : PlotState :=
  with_ax (fun a => mkAxes (ax_lines a) (ax_grid a) (ax_xlim_request a)
                      (Some (xtext, 16)) (Some (ytext, 16))) s.

Definition xlabelled (xtext : string) (s : PlotState) : PlotState :=
  with_ax (fun a => mkAxes (ax_lines a) (ax_grid a) (ax_xlim_request a)
                      (Some (xtext, 16)) (ax_ylabel a)) s.

(** A plotting call draws with method [m]: whatever the state it starts
    from and however it ends, the lines it adds to the axes were all drawn
    by [m], and when it returns it has added [n] of them. *)
Definition draws_with (run : M PlotState unit) (n : nat) (m : draw_method) : Prop :=
  forall s, exists new,
    ax_lines (ax (run s).1) = ax_lines (ax s) ++ new
    /\ Forall (fun l => drawn_by l = m) new
    /\ ((run s).2 = Ok tt -> length new = n).

(** A plotting call started from [s] returns, and has then added [n] lines
    to the axes, all of them drawn by [m]. *)
Definition returns_drawing (run : M PlotState unit) (s : PlotState) (n : nat)
    (m : draw_method) : Prop :=
  exists s' new,
    run s = (s', Ok tt)
    /\ ax_lines (ax s') = ax_lines (ax s) ++ new
    /\ length new = n
    /\ Forall (fun l => drawn_by l = m) new.

(** A line drawn by method [m] over the distances [dv] for one of the
    GMPE names, whose ordinates are row 0 of that GMPE's table entry. *)
Definition line_of_row0 (m : draw_method) (dv : list float) (gmvs : Table)
    (i_m : string) (names : list string) (l : Line2D) : Prop :=
  drawn_by l = m /\ xdata l = dv /\ label l ∈ names
  /\ table_row0 gmvs (label l) i_m = Ok (ydata l).

(** [sub] occurs in [s]. *)
Definition substring_of (sub s : string) : Prop :=
  exists pre post, s = pre +:+ sub +:+ post.

(** A plotting method as a loop of [plot_step]: the two lists are reset,
    the distance values are read, the plot-scale is asserted, and one
    iteration runs per GMPE. *)
Definition plot_loop {SitesContext RuptureContext IMT : Type}
    (m : draw_method) (set_labels : M PlotState unit)
    (self : Trellis SitesContext RuptureContext IMT)
    (i_m : string) (gmvs : Table) : M PlotState unit :=
  fun s =>
    match getattr (dctx self) (distance_type self) with
    | Raise e => (reset_lists s, Raise e)
    | Ok dv =>
        if String.eqb (plot_type self) "loglog"
           || String.eqb (plot_type self) "semilogy"
        then for_each (class_name <$> gsims self)
               (plot_step m set_labels dv gmvs i_m) (reset_lists s)
        else (reset_lists s, Raise AssertionError)
    end.

(** The five distance metrics of [DISTANCE_LABEL_MAP]. *)
Definition recognized_distance (d : string) : Prop :=
  d = "repi" \/ d = "rhypo" \/ d = "rjb" \/ d = "rrup" \/ d = "rx".

(** Smallest and largest element of a non-empty list of floats. *)
Definition list_min (xs : list float) : option float :=
  match xs with
  | [] => None
  | x :: xs' => Some (fold_left Qmin xs' x)
  end.

Definition list_max (xs : list float) : option float :=
  match xs with
  | [] => None
  | x :: xs' => Some (fold_left Qmax xs' x)
  end.

(** The evaluation calls of one pair for the [n] rows from index [first]. *)
Definition pair_calls (name i_m : string) (first n : nat)
    : list (string * string * nat) :=
  (fun j => (name, i_m, j)) <$> seq first n.

(** ** The loops of the value collector, level by level *)

Section CollectorLoops.

Context {SitesContext RuptureContext IMT : Type}.
Variable from_string : string -> result IMT.
#[local] Abbreviation Trellis := (Trellis SitesContext RuptureContext IMT).
#[local] Abbreviation GMPE := (GMPE SitesContext RuptureContext IMT).

(** The body of the row loop, of the intensity-measure loop and of the GMPE
    loop of [get_ground_motion_values]. *)
Definition row_body (self : Trellis) (gmpe : GMPE) (i_m : string)
    (iloc : nat) (rct : RuptureContext) : M CollectorState flow :=
  try_except_KeyError
    (let* res := DistanceSigmaIMTTrellis.call_get_mean_and_stddevs
                   from_string self gmpe i_m iloc rct in
     let* sigma0 := lift (getitem_first res.2) in
     let* arr := (fun s => (s, table_getitem (gmvs_of s) (class_name gmpe) i_m)) in
     let* arr' := lift (setitem_row arr iloc sigma0) in
     table_setitem (class_name gmpe) i_m arr' ;;;
     ret Continue)
    (table_setitem (class_name gmpe) i_m EmptyList ;;;
     ret Break).

Definition collect_pair (self : Trellis) (gmpe : GMPE) (i_m : string)
    : M CollectorState unit :=
  table_setitem (class_name gmpe) i_m
    (np_zeros (length (rctx self)) (nsites self)) ;;;
  for_enumerate 0 (rctx self) (row_body self gmpe i_m).

Definition collect_gmpe (self : Trellis) (gmpe : GMPE) : M CollectorState unit :=
  modify (with_gmvs (od_set (class_name gmpe) ∅)) ;;;
  for_each (imts self) (collect_pair self gmpe).

(** What the library hands to the collector for one row: [sigmas[0]], or
    the exception raised by the parser, by the evaluation or by the
    indexing of its result. *)
Definition evaluate_row (self : Trellis) (gmpe : GMPE) (i_m : string)
    (rct : RuptureContext) : result (list float) :=
  match from_string i_m with
  | Raise e => Raise e
  | Ok im =>
      match get_mean_and_stddevs gmpe (sctx self) rct (dctx self) im [stddevs self] with
      | Raise e => Raise e
      | Ok res => getitem_first res.2
      end
  end.

(** The evaluation call recorded for one row: none when the parser raised. *)
Definition row_calls (gmpe : GMPE) (i_m : string) (iloc : nat)
    : list (string * string * nat) :=
  match from_string i_m with
  | Ok _ => [(class_name gmpe, i_m, iloc)]
  | Raise _ => []
  end.

(** The entry the row loop leaves for a pair, as a function of what the
    library returns: the rows written so far are [rows], the remaining
    contexts are [rcts] and the next index is [iloc]. *)
Fixpoint rows_outcome (self : Trellis) (gmpe : GMPE) (i_m : string)
    (iloc : nat) (rcts : list RuptureContext) (rows : list (list float))
    : result entry :=
  match rcts with
  | [] => Ok (NDArray rows)
  | rct :: rcts' =>
      match evaluate_row self gmpe i_m rct with
      | Raise e => if is_KeyError e then Ok EmptyList else Raise e
      | Ok v =>
          match array_set_row rows iloc v with
          | Ok rows' => rows_outcome self gmpe i_m (S iloc) rcts' rows'
          | Raise e => Raise e
          end
      end
  end.

Definition pair_outcome (self : Trellis) (gmpe : GMPE) (i_m : string) : result entry :=
  rows_outcome self gmpe i_m 0 (rctx self)
    (replicate (length (rctx self)) (replicate (nsites self) 0%Q)).

Fixpoint imts_outcome (self : Trellis) (gmpe : GMPE) (ims : list string)
    (d : gmap string entry) : result (gmap string entry) :=
  match ims with
  | [] => Ok d
  | i_m :: ims' =>
      match pair_outcome self gmpe i_m with
      | Ok e => imts_outcome self gmpe ims' (<[i_m := e]> d)
      | Raise e => Raise e
      end
  end.

Fixpoint gsims_outcome (self : Trellis) (gs : list GMPE) (t : Table) : result Table :=
  match gs with
  | [] => Ok t
  | gmpe :: gs' =>
      match imts_outcome self gmpe (imts self) ∅ with
      | Ok d => gsims_outcome self gs' (od_set (class_name gmpe) d t)
      | Raise e => Raise e
      end
  end.

(** A row whose standard deviations were obtained and fit a table row. *)
Definition row_stored (self : Trellis) (gmpe : GMPE) (i_m : string)
    (rct : RuptureContext) : Prop :=
  exists v r, evaluate_row self gmpe i_m rct = Ok v
              /\ broadcast_to v (nsites self) = Ok r.

(** A row on which the library signals an unsupported combination. *)
Definition row_unsupported (self : Trellis) (gmpe : GMPE) (i_m : string)
    (rct : RuptureContext) : Prop :=
  exists e, evaluate_row self gmpe i_m rct = Raise e /\ is_KeyError e = true.

(** All rows before index [k] are stored. *)
Definition rows_stored_before (self : Trellis) (gmpe : GMPE) (i_m : string)
    (k : nat) : Prop :=
  forall j rct, j < k -> rctx self !! j = Some rct -> row_stored self gmpe i_m rct.

(** A pair on which the collector does not raise: every row is stored or
    unsupported. *)
Definition pair_benign (self : Trellis) (gmpe : GMPE) (i_m : string) : Prop :=
  forall rct, rct ∈ rctx self ->
    row_stored self gmpe i_m rct \/ row_unsupported self gmpe i_m rct.

(** The table is keyed by class name: the entries of a name are those of
    the last GMPE of [gs] that carries it. *)
Definition last_of_its_class (gmpe : GMPE) (gs : list GMPE) : Prop :=
  exists gs1 gs2, gs = gs1 ++ gmpe :: gs2
                  /\ forall g', g' ∈ gs2 -> class_name g' <> class_name gmpe.

End CollectorLoops.

(** ** Further definitions for the statements *)

(** The keys of [PLOT_UNITS]. *)
Definition unit_keys : list string :=
  ["PGA"; "PGV"; "SA"; "IA"; "CSV"; "RSD"; "MMI"].

(** The keys of an ordered dictionary, in order. *)
Definition od_keys {V} (d : OrderedDict V) : list string := d.*1.

(** A line as the loops draw it for a GMPE name: solid, of width 2, over the
    distance values, labelled with the name. *)
Definition drawn_for (dv : list float) (l : Line2D) : Prop :=
  xdata l = dv /\ fmt l = "-" /\ linewidth l = 2%Q.

(** The same trellis asked for other GMPEs and intensity measures. *)
Definition with_request {SitesContext RuptureContext IMT : Type}
    (self : Trellis SitesContext RuptureContext IMT)
    (gs : list (GMPE SitesContext RuptureContext IMT)) (ims : list string)
    : Trellis SitesContext RuptureContext IMT :=
  mkTrellis _ _ _ gs ims (rctx self) (sctx self) (dctx self) (nsites self)
    (stddevs self) (distance_type self) (plot_type self).

(** The same trellis with another plot-scale string. *)
Definition with_plot_type {SitesContext RuptureContext IMT : Type}
    (self : Trellis SitesContext RuptureContext IMT) (pt : string)
    : Trellis SitesContext RuptureContext IMT :=
  mkTrellis _ _ _ (gsims self) (imts self) (rctx self) (sctx self) (dctx self)
    (nsites self) (stddevs self) (distance_type self) pt.

(** A line and a plotting state with the draw methods forgotten. *)
Definition forget_method (l : Line2D) : Line2D :=
  mkLine plot (xdata l) (ydata l) (fmt l) (linewidth l) (label l).

Definition forget_methods (s : PlotState) : PlotState :=
  mkPlotState (labels s) (forget_method <$> lines s)
    (mkAxes (forget_method <$> ax_lines (ax s)) (ax_grid (ax s))
       (ax_xlim_request (ax s)) (ax_xlabel (ax s)) (ax_ylabel (ax s))).

(** * Example inputs

    A small library instance: the site context is trivial, a rupture
    context is its magnitude, and a parsed intensity measure is its name. *)

(** The parser knows every name but "XYZ". *)
Definition ex_from_string (i_m : string) : result string :=
  if String.eqb i_m "XYZ" then Raise (KeyError i_m) else Ok i_m.

(** GmpeA has no coefficients for PGV; elsewhere its standard deviation at
    each of four sites is a tenth of the magnitude. *)
Definition ex_gmpe_a : GMPE unit Q string :=
  mkGMPE _ _ _ "GmpeA" (fun _ mag _ im _ =>
    if String.eqb im "PGV" then Raise (KeyError "PGV")
    else Ok ([mag; mag; mag; mag],
             [[mag / 10; mag / 10; mag / 10; mag / 10]%Q])).

(** A second object of class GmpeA, set up with other coefficients: it is
    not defined from magnitude 7 on. *)
Definition ex_gmpe_a2 : GMPE unit Q string :=
  mkGMPE _ _ _ "GmpeA" (fun _ mag _ im _ =>
    if Qle_bool 7 mag then Raise (KeyError "mag")
    else Ok ([mag; mag; mag; mag], [[1 # 2; 1 # 2; 1 # 2; 1 # 2]%Q])).

(** GmpeB is not defined from magnitude 7 on. *)
Definition ex_gmpe_b : GMPE unit Q string :=
  mkGMPE _ _ _ "GmpeB" (fun _ mag _ im _ =>
    if Qle_bool 7 mag then Raise (KeyError "mag")
    else Ok ([mag; mag; mag; mag], [[1 # 2; 1 # 2; 1 # 2; 1 # 2]%Q])).


Definition ex_dctx : gmap string (list Q) :=
  <["rjb" := [1; 10; 50; 100]%Q]> ∅.

(** The same distances in descending order. *)
Definition ex_dctx_descending : gmap string (list Q) :=
  <["rjb" := [100; 50; 10; 1]%Q]> ∅.

(** Magnitudes 6 and 7, four sites, intensity measures PGA and PGV. *)
Definition ex_trellis (gs : list (GMPE unit Q string))
    (d : gmap string (list Q)) (distance plot_scale : string)
    : Trellis unit Q string :=
  mkTrellis _ _ _ gs ["PGA"; "PGV"] [6; 7]%Q tt d 4 "Total" distance plot_scale.

Definition ex_collector_state : CollectorState := mkCollectorState [] [].

Definition ex_plot_state : PlotState := mkPlotState [] [] new_axes.

(** The table collected for GmpeA alone: PGA is a 2 x 4 array and PGV is
    the empty list. *)
Definition ex_table : OrderedDict (gmap string entry) :=
  match (DistanceSigmaIMTTrellis.get_ground_motion_values ex_from_string
           (ex_trellis [ex_gmpe_a] ex_dctx "rjb" "loglog") ex_collector_state).2 with
  | Ok t => t
  | Raise _ => []
  end.

(** [ex_table] with every row after the first of the PGA array replaced. *)
Definition ex_table_other_rows : OrderedDict (gmap string entry) :=
  [("GmpeA", <["PGA" := NDArray [[6 / 10; 6 / 10; 6 / 10; 6 / 10];
                                 [0; 0; 0; 0]]%Q]> ∅)].

(** Further example inputs. *)

(** GmpeD returns no standard-deviation array at all, and GmpeE returns
    three values for any number of sites. *)
Definition ex_gmpe_d : GMPE unit Q string :=
  mkGMPE _ _ _ "GmpeD" (fun _ mag _ im _ => Ok ([mag; mag; mag; mag], [])).

Definition ex_gmpe_e : GMPE unit Q string :=
  mkGMPE _ _ _ "GmpeE" (fun _ mag _ im _ =>
    Ok ([mag; mag; mag; mag], [[1 # 2; 1 # 2; 1 # 2]%Q])).

(** The example trellis without rupture contexts. *)
Definition ex_trellis_no_rupture : Trellis unit Q string :=
  mkTrellis _ _ _ [ex_gmpe_a; ex_gmpe_b] ["PGA"; "XYZ"] [] tt ex_dctx 4
    "Total" "rjb" "loglog".


(** GmpeA asked for PGA and for the string the parser rejects. *)
Definition ex_trellis_xyz : Trellis unit Q string :=
  with_request (ex_trellis [ex_gmpe_a] ex_dctx "rjb" "loglog")
    [ex_gmpe_a] ["PGA"; "XYZ"].

Definition ex_table_xyz : OrderedDict (gmap string entry) :=
  match (DistanceSigmaIMTTrellis.get_ground_motion_values ex_from_string
           ex_trellis_xyz ex_collector_state).2 with
  | Ok t => t
  | Raise _ => []
  end.

(** The table collected for GmpeA and GmpeB. *)
Definition ex_table_ab : OrderedDict (gmap string entry) :=
  match (DistanceSigmaIMTTrellis.get_ground_motion_values ex_from_string
           (ex_trellis [ex_gmpe_a; ex_gmpe_b] ex_dctx "rjb" "loglog")
           ex_collector_state).2 with
  | Ok t => t
  | Raise _ => []
  end.


(** * Lemmas *)

(** ** The loops *)

Ltac unfold_monad :=
  unfold bind, ret, raise, lift, modify, gets, python_assert in *.

Ltac split_elem H :=
  repeat (apply elem_of_cons in H as [->|H]); try (by apply elem_of_nil in H).

Section LoopLemmas.

Context {St A : Type}.

Lemma for_each_ext (xs : list A) (f g : A -> M St unit) :
  (forall x, x ∈ xs -> forall s, f x s = g x s) ->
  forall s, for_each xs f s = for_each xs g s.
Proof.
  induction xs as [|x xs IH]; intros Hfg s; [reflexivity|].
  simpl. unfold bind. rewrite Hfg by (apply elem_of_cons; auto).
  destruct (g x s) as [s' [[]|e]]; [|reflexivity].
  apply IH. intros y Hy. apply Hfg, elem_of_cons. auto.
Qed.

Lemma for_each_app (xs ys : list A) (f : A -> M St unit) (s : St) :
  for_each (xs ++ ys) f s =
  match for_each xs f s with
  | (s', Ok _) => for_each ys f s'
  | (s', Raise e) => (s', Raise e)
  end.
Proof.
  revert s. induction xs as [|x xs IH]; intros s; [reflexivity|].
  simpl. unfold bind. destruct (f x s) as [s' [[]|e]]; [apply IH|reflexivity].
Qed.

(** After a non-empty loop that returns, what every returning iteration
    establishes holds. *)
Lemma for_each_last_post (P : St -> Prop) (xs : list A) (f : A -> M St unit) :
  xs <> [] ->
  (forall x s s', x ∈ xs -> f x s = (s', Ok tt) -> P s') ->
  forall s s', for_each xs f s = (s', Ok tt) -> P s'.
Proof.
  induction xs as [|x xs IH]; intros Hne Hstep s s' Hrun; [done|].
  simpl in Hrun. unfold bind in Hrun.
  destruct (f x s) as [s1 [[]|e]] eqn:Hx; [|discriminate].
  destruct xs as [|y ys].
  - simpl in Hrun. unfold ret in Hrun. injection Hrun as <-.
    eapply Hstep; [|exact Hx]. apply elem_of_cons. auto.
  - eapply IH; [done| |exact Hrun].
    intros z t t' Hz. apply Hstep, elem_of_cons. auto.
Qed.

(** An exception that leaves the loop was raised by one of its iterations. *)
Lemma for_each_raise_inv (xs : list A) (f : A -> M St unit) (s s' : St) (e : exn) :
  for_each xs f s = (s', Raise e) ->
  exists x s1, x ∈ xs /\ f x s1 = (s', Raise e).
Proof.
  revert s. induction xs as [|x xs IH]; intros s Hrun; [discriminate|].
  simpl in Hrun. unfold bind in Hrun.
  destruct (f x s) as [s1 [[]|e1]] eqn:Hx.
  - destruct (IH _ Hrun) as (y & t & Hy & Hrun').
    exists y, t. split; [apply elem_of_cons; auto|exact Hrun'].
  - injection Hrun as <- <-. exists x, s. split; [apply elem_of_cons; auto|exact Hx].
Qed.

Lemma for_each_map {B} (g : B -> A) (ys : list B) (f : A -> M St unit) (s : St) :
  for_each (g <$> ys) f s = for_each ys (fun y => f (g y)) s.
Proof.
  revert s. induction ys as [|y ys IH]; intros s; [reflexivity|].
  simpl. unfold bind. destruct (f (g y) s) as [s' [[]|e]]; [apply IH|reflexivity].
Qed.

(** A loop with an iteration that never returns does not return. *)
Lemma for_each_never_returns (xs : list A) (f : A -> M St unit) (x : A) :
  x ∈ xs -> (forall s, (f x s).2 <> Ok tt) ->
  forall s, (for_each xs f s).2 <> Ok tt.
Proof.
  induction xs as [|y xs IH]; intros Hx Hf s; [by apply elem_of_nil in Hx|].
  simpl. unfold bind. destruct (f y s) as [s' [[]|e]] eqn:Hy; [|done].
  apply elem_of_cons in Hx as [->|Hx]; [|by apply IH].
  exfalso. apply (Hf s). by rewrite Hy.
Qed.

End LoopLemmas.

(** ** Strings and tables *)

Lemma append_cons (b : Ascii.ascii) (s t : string) :
  String b s +:+ t = String b (s +:+ t).
Proof. reflexivity. Qed.

Lemma prefix_spec (sub s : string) :
  String.prefix sub s = true <-> exists post, s = sub +:+ post.
Proof.
  revert s. induction sub as [|a sub IH]; intros s.
  - split; [intros _; by exists s|intros _; by destruct s].
  - destruct s as [|b s]; simpl.
    + split; [done|]. intros [post H]. rewrite append_cons in H. discriminate.
    + destruct (Ascii.ascii_dec a b) as [->|Hne].
      * rewrite IH. split; intros [post H]; exists post;
          rewrite append_cons in *; congruence.
      * split; [done|]. intros [post H]. rewrite append_cons in H. congruence.
Qed.

Lemma str_contains_spec (sub s : string) :
  str_contains sub s = true <-> substring_of sub s.
Proof.
  unfold substring_of. induction s as [|b s IH].
  - cbn [str_contains]. rewrite orb_false_r, prefix_spec. split.
    + intros [post H]. by exists EmptyString, post.
    + intros (pre & post & H). destruct pre as [|c pre].
      * by exists post.
      * rewrite append_cons in H. discriminate.
  - cbn [str_contains]. rewrite orb_true_iff, prefix_spec, IH. split.
    + intros [[post H]|(pre & post & H)].
      * by exists EmptyString, post.
      * exists (String b pre), post. rewrite append_cons. by rewrite H.
    + intros (pre & post & H). destruct pre as [|c pre].
      * left. by exists post.
      * right. exists pre, post. rewrite append_cons in H. congruence.
Qed.

Lemma od_lookup_set_eq {V} (k : string) (v : V) (d : OrderedDict V) :
  od_lookup k (od_set k v d) = Some v.
Proof.
  induction d as [|[k' v'] d IH]; simpl.
  - by rewrite String.eqb_refl.
  - destruct (String.eqb k k') eqn:E; simpl; [by rewrite String.eqb_refl|].
    by rewrite E.
Qed.

Lemma od_lookup_set_ne {V} (k k' : string) (v : V) (d : OrderedDict V) :
  k <> k' -> od_lookup k' (od_set k v d) = od_lookup k' d.
Proof.
  intros Hne. induction d as [|[k0 v0] d IH]; simpl.
  - destruct (String.eqb k' k) eqn:E; [|done].
    apply String.eqb_eq in E. congruence.
  - destruct (String.eqb k k0) eqn:E; simpl.
    + apply String.eqb_eq in E. subst k0.
      destruct (String.eqb k' k) eqn:E'; [|done].
      apply String.eqb_eq in E'. congruence.
    + by rewrite IH.
Qed.

Lemma od_set_set {V} (k : string) (v w : V) (d : OrderedDict V) :
  od_set k w (od_set k v d) = od_set k w d.
Proof.
  induction d as [|[k' v'] d IH]; simpl.
  - by rewrite String.eqb_refl.
  - destruct (String.eqb k k') eqn:E; simpl.
    + by rewrite String.eqb_refl.
    + by rewrite E, IH.
Qed.

Lemma table_row0_Ok (gmvs : Table) (name i_m : string) (y : list float) :
  table_row0 gmvs name i_m = Ok y <->
  exists d rest, od_lookup name gmvs = Some d
                 /\ d !! i_m = Some (NDArray (y :: rest)).
Proof.
  unfold table_row0, table_getitem, od_getitem, dict_getitem. split.
  - destruct (od_lookup name gmvs) as [d|]; [|done].
    destruct (d !! i_m) as [[[|r rest]|]|] eqn:E; try done.
    intros [= ->]. by exists d, rest.
  - intros (d & rest & -> & ->). reflexivity.
Qed.

Lemma table_row0_EmptyList (gmvs : Table) (name i_m : string) :
  table_getitem gmvs name i_m = Ok EmptyList ->
  table_row0 gmvs name i_m = Raise TypeError.
Proof. unfold table_row0. by intros ->. Qed.

Lemma table_row0_Raise (gmvs : Table) (name i_m : string) (e : exn) :
  table_row0 gmvs name i_m = Raise e -> e <> AssertionError.
Proof.
  unfold table_row0, table_getitem, od_getitem, dict_getitem.
  destruct (od_lookup name gmvs) as [d|]; [|by intros [= <-]].
  destruct (d !! i_m) as [[[|r rest]|]|]; by intros [= <-].
Qed.


Lemma distance_label_recognized (d name : string) :
  DISTANCE_LABEL_MAP !! d = Some name -> recognized_distance d.
Proof.
  intros H. destruct (decide (d = "repi")) as [->|?]; [by left|].
  destruct (decide (d = "rhypo")) as [->|?]; [right; by left|].
  destruct (decide (d = "rjb")) as [->|?]; [right; right; by left|].
  destruct (decide (d = "rrup")) as [->|?]; [right; right; right; by left|].
  destruct (decide (d = "rx")) as [->|?]; [do 4 right; done|].
  unfold DISTANCE_LABEL_MAP in H.
  rewrite !lookup_insert_ne, lookup_empty in H by done. discriminate.
Qed.

(** ** Ascending distance values *)

Lemma sorted_first_last (dv : list float) :
  forall lo hi,
  Sorted Qle dv -> head dv = Some lo -> last dv = Some hi ->
  forall d, d ∈ dv -> (lo <= d)%Q /\ (d <= hi)%Q.
Proof.
  induction dv as [|x dv IH]; intros lo hi Hs Hlo Hhi d Hd; [done|].
  injection Hlo as <-.
  pose proof Hs as Hss.
  apply Sorted_StronglySorted in Hss; [|intros a b c; apply Qle_trans].
  apply StronglySorted_inv in Hss as [_ Hall].
  rewrite Forall_forall in Hall.
  apply Sorted_inv in Hs as [Hs _].
  destruct dv as [|y dv].
  - apply list_elem_of_singleton in Hd as ->. injection Hhi as <-.
    split; apply Qle_refl.
  - rewrite last_cons_cons in Hhi.
    apply elem_of_cons in Hd as [->|Hd].
    + split; [apply Qle_refl|]. by apply Hall, last_Some_elem_of.
    + split; [by apply Hall|]. by apply (IH y hi Hs eq_refl Hhi).
Qed.

(** ** One iteration of the plotting loop *)

Lemma plot_step_run (m : draw_method) (sl : M PlotState unit)
    (dv : list float) (gmvs : Table) (i_m name : string) (s : PlotState) :
  plot_step m sl dv gmvs i_m name s =
  match table_row0 gmvs name i_m with
  | Raise e => (with_labels (labels s ++ [name]) s, Raise e)
  | Ok y =>
      if Nat.eqb (length dv) (length y) then
        match getitem_first dv, getitem_last dv with
        | Ok lo, Ok hi => sl (after_draw (mkLine m dv y "-" 2 name) lo hi s)
        | _, _ =>
            (mkPlotState (labels s ++ [name]) (lines s)
               (mkAxes (ax_lines (ax s) ++ [mkLine m dv y "-" 2 name])
                  (ax_grid (ax s)) (ax_xlim_request (ax s))
                  (ax_xlabel (ax s)) (ax_ylabel (ax s))),
             Raise IndexError)
        end
      else (with_labels (labels s ++ [name]) s, Raise ValueError)
  end.
Proof.
  unfold plot_step, ax_draw, ax_set_grid, ax_set_xlim. unfold_monad.
  destruct (table_row0 gmvs name i_m) as [y|e]; [|reflexivity]. simpl.
  destruct (Nat.eqb (length dv) (length y)); [|reflexivity]. simpl.
  unfold getitem_first, getitem_last.
  destruct (head dv) as [lo|] eqn:Hhd.
  - destruct (last dv) as [hi|] eqn:Hlast; reflexivity.
  - destruct (last dv); reflexivity.
Qed.

Section StepLemmas.

Variables (m : draw_method) (sl : M PlotState unit).
Variables (dv : list float) (gmvs : Table) (i_m : string).

(** What the label method may do, for the lemmas below: it leaves the
    lines and the x-limit request of the axes alone and its only exception is a
    failed lookup. *)
Hypothesis sl_lines : forall s, ax_lines (ax (sl s).1) = ax_lines (ax s).
Hypothesis sl_xlim : forall s, ax_xlim_request (ax (sl s).1) = ax_xlim_request (ax s).
Hypothesis sl_raise : forall s s' e, sl s = (s', Raise e) -> is_KeyError e = true.

#[local] Abbreviation step_line_ok := (line_of_row0 m dv gmvs i_m).

Lemma plot_step_lines (names : list string) (name : string) (s : PlotState) :
  name ∈ names ->
  exists new,
    ax_lines (ax (plot_step m sl dv gmvs i_m name s).1) = ax_lines (ax s) ++ new
    /\ Forall (step_line_ok names) new
    /\ ((plot_step m sl dv gmvs i_m name s).2 = Ok tt -> length new = 1).
Proof using sl_lines.
  intros Hname. rewrite plot_step_run.
  destruct (table_row0 gmvs name i_m) as [y|e] eqn:Hrow.
  2:{ exists []. simpl. rewrite app_nil_r. by repeat split. }
  destruct (Nat.eqb (length dv) (length y)).
  2:{ exists []. simpl. rewrite app_nil_r. by repeat split. }
  assert (Hok : step_line_ok names (mkLine m dv y "-" 2 name)) by (by repeat split).
  exists [mkLine m dv y "-" 2 name].
  destruct (getitem_first dv) as [lo|e1], (getitem_last dv) as [hi|e2];
    simpl; try (split; [reflexivity|split; [by constructor|done]]).
  rewrite sl_lines. simpl. split; [reflexivity|]. split; [by constructor|done].
Qed.

Lemma plot_steps_lines (names gnames : list string) (s : PlotState) :
  (forall n, n ∈ gnames -> n ∈ names) ->
  exists new,
    ax_lines (ax (for_each gnames (plot_step m sl dv gmvs i_m) s).1)
      = ax_lines (ax s) ++ new
    /\ Forall (step_line_ok names) new
    /\ ((for_each gnames (plot_step m sl dv gmvs i_m) s).2 = Ok tt ->
        length new = length gnames).
Proof using sl_lines.
  revert s. induction gnames as [|n gnames IH]; intros s Hsub.
  - exists []. simpl. rewrite app_nil_r. by repeat split.
  - destruct (plot_step_lines names n s) as (new1 & Hl1 & Hok1 & Hlen1).
    { apply Hsub, elem_of_cons. auto. }
    simpl. unfold bind.
    destruct (plot_step m sl dv gmvs i_m n s) as [s1 [[]|e]] eqn:Hstep; simpl in *.
    + destruct (IH s1) as (new2 & Hl2 & Hok2 & Hlen2).
      { intros k Hk. apply Hsub, elem_of_cons. auto. }
      exists (new1 ++ new2). rewrite Hl2, Hl1, app_assoc. split; [reflexivity|].
      split; [by apply Forall_app|]. intros Hr.
      rewrite length_app, Hlen1, Hlen2 by done. reflexivity.
    + exists new1. by repeat split.
Qed.

(** A returning iteration has requested the first and the last distance
    value as x-limits. *)
Lemma plot_step_xlim (name : string) (s s' : PlotState) :
  plot_step m sl dv gmvs i_m name s = (s', Ok tt) ->
  exists lo hi, head dv = Some lo /\ last dv = Some hi
                /\ ax_xlim_request (ax s') = Some (lo, hi).
Proof using sl_xlim.
  rewrite plot_step_run.
  destruct (table_row0 gmvs name i_m) as [y|e]; [|discriminate].
  destruct (Nat.eqb (length dv) (length y)); [|discriminate].
  unfold getitem_first, getitem_last.
  destruct (head dv) as [lo|]; [|destruct (last dv); discriminate].
  destruct (last dv) as [hi|]; [|discriminate].
  intros Hsl. exists lo, hi. repeat split.
  pose proof (sl_xlim (after_draw (mkLine m dv y "-" 2 name) lo hi s)) as H.
  rewrite Hsl in H. exact H.
Qed.

Lemma plot_step_raise (name : string) (s s' : PlotState) (e : exn) :
  plot_step m sl dv gmvs i_m name s = (s', Raise e) -> e <> AssertionError.
Proof using sl_raise.
  rewrite plot_step_run.
  destruct (table_row0 gmvs name i_m) as [y|e0] eqn:Hrow.
  2:{ intros [= <- <-]. by eapply table_row0_Raise. }
  destruct (Nat.eqb (length dv) (length y)); [|by intros [= <- <-]].
  destruct (getitem_first dv) as [lo|e1], (getitem_last dv) as [hi|e2];
    try by intros [= <- <-].
  intros Hsl ->. apply sl_raise in Hsl. discriminate.
Qed.

Lemma plot_steps_raise (gnames : list string) (s s' : PlotState) (e : exn) :
  for_each gnames (plot_step m sl dv gmvs i_m) s = (s', Raise e) ->
  e <> AssertionError.
Proof using sl_raise.
  intros Hrun. apply for_each_raise_inv in Hrun as (n & s1 & _ & Hstep).
  by eapply plot_step_raise.
Qed.

End StepLemmas.

(** ** The label methods *)

Section LabelLemmas.

Context {SitesContext RuptureContext IMT : Type}.
#[local] Abbreviation Trellis := (Trellis SitesContext RuptureContext IMT).
Implicit Types (self : Trellis) (s : PlotState).

Lemma mean_set_labels_run self (i_m : string) s :
  DistanceIMTTrellis._set_labels self i_m s =
  match DISTANCE_LABEL_MAP !! distance_type self with
  | None => (s, Raise (KeyError (distance_type self)))
  | Some name =>
      let key := if str_contains "SA(" i_m then "SA" else i_m in
      match PLOT_UNITS !! key with
      | None => (xlabelled (name +:+ " (km)") s, Raise (KeyError key))
      | Some units =>
          (labelled (name +:+ " (km)")
             ("Median " +:+ i_m +:+ " (" +:+ units +:+ ")") s, Ok tt)
      end
  end.
Proof.
  unfold DistanceIMTTrellis._set_labels, dict_getitem, ax_set_xlabel, ax_set_ylabel.
  unfold_monad.
  destruct (DISTANCE_LABEL_MAP !! distance_type self) as [name|]; [|reflexivity].
  simpl. destruct (str_contains "SA(" i_m); simpl.
  - reflexivity.
  - destruct (PLOT_UNITS !! i_m); reflexivity.
Qed.

Lemma sigma_set_labels_run self (i_m : string) s :
  DistanceSigmaIMTTrellis._set_labels self i_m s =
  match DISTANCE_LABEL_MAP !! distance_type self with
  | None => (s, Raise (KeyError (distance_type self)))
  | Some name =>
      (labelled (name +:+ " (km)") (stddevs self +:+ " Std. Dev.") s, Ok tt)
  end.
Proof.
  unfold DistanceSigmaIMTTrellis._set_labels, dict_getitem, ax_set_xlabel,
    ax_set_ylabel. unfold_monad.
  destruct (DISTANCE_LABEL_MAP !! distance_type self) as [name|]; reflexivity.
Qed.

Lemma mean_set_labels_lines self i_m s :
  ax_lines (ax (DistanceIMTTrellis._set_labels self i_m s).1) = ax_lines (ax s).
Proof.
  rewrite mean_set_labels_run.
  destruct (DISTANCE_LABEL_MAP !! distance_type self); [|reflexivity].
  simpl. by destruct (PLOT_UNITS !! _).
Qed.

Lemma mean_set_labels_xlim self i_m s :
  ax_xlim_request (ax (DistanceIMTTrellis._set_labels self i_m s).1) = ax_xlim_request (ax s).
Proof.
  rewrite mean_set_labels_run.
  destruct (DISTANCE_LABEL_MAP !! distance_type self); [|reflexivity].
  simpl. by destruct (PLOT_UNITS !! _).
Qed.

Lemma mean_set_labels_raise self i_m s s' e :
  DistanceIMTTrellis._set_labels self i_m s = (s', Raise e) -> is_KeyError e = true.
Proof.
  rewrite mean_set_labels_run.
  destruct (DISTANCE_LABEL_MAP !! distance_type self); [|by intros [= <- <-]].
  simpl. destruct (PLOT_UNITS !! _); [done|by intros [= <- <-]].
Qed.

Lemma sigma_set_labels_lines self i_m s :
  ax_lines (ax (DistanceSigmaIMTTrellis._set_labels self i_m s).1) = ax_lines (ax s).
Proof.
  rewrite sigma_set_labels_run.
  by destruct (DISTANCE_LABEL_MAP !! distance_type self).
Qed.

Lemma sigma_set_labels_xlim self i_m s :
  ax_xlim_request (ax (DistanceSigmaIMTTrellis._set_labels self i_m s).1) = ax_xlim_request (ax s).
Proof.
  rewrite sigma_set_labels_run.
  by destruct (DISTANCE_LABEL_MAP !! distance_type self).
Qed.

Lemma sigma_set_labels_raise self i_m s s' e :
  DistanceSigmaIMTTrellis._set_labels self i_m s = (s', Raise e) ->
  is_KeyError e = true.
Proof.
  rewrite sigma_set_labels_run.
  destruct (DISTANCE_LABEL_MAP !! distance_type self); [done|by intros [= <- <-]].
Qed.

(** ** The plotting methods as loops of [plot_step] *)

Lemma mean_build_plot_run self (i_m : string) (gmvs : Table) s :
  DistanceIMTTrellis._build_plot self i_m gmvs s =
  plot_loop (mean_method (plot_type self)) (DistanceIMTTrellis._set_labels self i_m)
    self i_m gmvs s.
Proof.
  unfold plot_loop, DistanceIMTTrellis._build_plot. unfold bind at 1 2 3 4. simpl.
  unfold lift at 1.
  destruct (getattr (dctx self) (distance_type self)) as [dv|e]; [|reflexivity].
  unfold python_assert.
  destruct (String.eqb (plot_type self) "loglog"
            || String.eqb (plot_type self) "semilogy"); [|reflexivity].
  unfold ret at 1. rewrite for_each_map. apply for_each_ext. intros g _ t.
  unfold plot_step, mean_method.
  destruct (String.eqb (plot_type self) "semilogy"); unfold_monad;
    destruct (table_row0 gmvs (class_name g) i_m) as [y|]; try reflexivity;
    simpl; destruct (ax_draw _ dv y "-" 2 (class_name g) _) as [t1 [l|]];
    try reflexivity;
    destruct (getitem_first dv), (getitem_last dv); reflexivity.
Qed.

Lemma sigma_build_plot_run self (i_m : string) (gmvs : Table) s :
  DistanceSigmaIMTTrellis._build_plot self i_m gmvs s =
  plot_loop (sigma_method (plot_type self)) (DistanceSigmaIMTTrellis._set_labels self i_m)
    self i_m gmvs s.
Proof.
  unfold plot_loop, DistanceSigmaIMTTrellis._build_plot. unfold bind at 1 2 3 4. simpl.
  unfold lift at 1.
  destruct (getattr (dctx self) (distance_type self)) as [dv|e]; [|reflexivity].
  unfold python_assert.
  destruct (String.eqb (plot_type self) "loglog"
            || String.eqb (plot_type self) "semilogy"); [|reflexivity].
  unfold ret at 1. rewrite for_each_map. apply for_each_ext. intros g _ t.
  unfold plot_step, sigma_method.
  destruct (String.eqb (plot_type self) "loglog"); unfold_monad;
    destruct (table_row0 gmvs (class_name g) i_m) as [y|]; try reflexivity;
    simpl; destruct (ax_draw _ dv y "-" 2 (class_name g) _) as [t1 [l|]];
    try reflexivity;
    destruct (getitem_first dv), (getitem_last dv); reflexivity.
Qed.

End LabelLemmas.

(** ** numpy row assignment *)

Lemma broadcast_to_length (v r : list float) (n : nat) :
  broadcast_to v n = Ok r -> length r = n.
Proof.
  unfold broadcast_to. destruct (Nat.eqb (length v) n) eqn:E.
  - intros [= <-]. by apply Nat.eqb_eq.
  - destruct v as [|x [|y v]]; try discriminate.
    intros [= <-]. apply length_replicate.
Qed.

Lemma broadcast_to_same (v : list float) : broadcast_to v (length v) = Ok v.
Proof. unfold broadcast_to. by rewrite Nat.eqb_refl. Qed.

Lemma broadcast_to_raise (v : list float) (n : nat) (e : exn) :
  broadcast_to v n = Raise e -> e = ValueError.
Proof.
  unfold broadcast_to. destruct (Nat.eqb (length v) n); [discriminate|].
  destruct v as [|x [|y v]]; congruence.
Qed.

Lemma array_set_row_raise (rows : list (list float)) (iloc : nat)
    (v : list float) (e : exn) :
  array_set_row rows iloc v = Raise e -> is_KeyError e = false.
Proof.
  unfold array_set_row. destruct (rows !! iloc) as [old|]; [|by intros [= <-]].
  destruct (broadcast_to v (length old)) as [r|e0] eqn:E; [discriminate|].
  intros [= <-]. by rewrite (broadcast_to_raise _ _ _ E).
Qed.

(** Rows of width [n]: assigning into an existing row succeeds exactly when
    the value broadcasts to [n], and keeps shape. *)
Lemma array_set_row_Ok (rows : list (list float)) (iloc n : nat)
    (v r : list float) :
  Forall (fun row => length row = n) rows ->
  iloc < length rows ->
  broadcast_to v n = Ok r ->
  array_set_row rows iloc v = Ok (<[iloc := r]> rows).
Proof.
  intros Hw Hlt Hb. unfold array_set_row.
  destruct (lookup_lt_is_Some_2 rows iloc Hlt) as [old Hold]. rewrite Hold.
  rewrite Forall_lookup in Hw. rewrite (Hw _ _ Hold), Hb. reflexivity.
Qed.

Lemma array_set_row_inv (rows rows' : list (list float)) (iloc n : nat)
    (v : list float) :
  Forall (fun row => length row = n) rows ->
  array_set_row rows iloc v = Ok rows' ->
  exists r, broadcast_to v n = Ok r /\ rows' = <[iloc := r]> rows
            /\ iloc < length rows.
Proof.
  intros Hw. unfold array_set_row.
  destruct (rows !! iloc) as [old|] eqn:Hold; [|discriminate].
  rewrite Forall_lookup in Hw. rewrite (Hw _ _ Hold).
  destruct (broadcast_to v n) as [r|]; [|discriminate].
  intros [= <-]. exists r. repeat split. by eapply lookup_lt_Some.
Qed.

Lemma insert_row_widths (rows : list (list float)) (iloc n : nat) (r : list float) :
  Forall (fun row => length row = n) rows -> length r = n ->
  Forall (fun row => length row = n) (<[iloc := r]> rows).
Proof. intros Hw Hr. by apply Forall_insert. Qed.

Lemma od_set_id {V} (k : string) (v : V) (d : OrderedDict V) :
  od_lookup k d = Some v -> od_set k v d = d.
Proof.
  induction d as [|[k' v'] d IH]; simpl; [done|].
  destruct (String.eqb k k') eqn:E.
  - apply String.eqb_eq in E. by intros [= ->]; subst.
  - intros H. by rewrite IH.
Qed.

(** ** The row loop of the collector *)

Section CollectorLemmas.

Context {SitesContext RuptureContext IMT : Type}.
Variable fs : string -> result IMT.
#[local] Abbreviation Trellis := (Trellis SitesContext RuptureContext IMT).
#[local] Abbreviation GMPE := (GMPE SitesContext RuptureContext IMT).
Implicit Types (self : Trellis) (g : GMPE) (s : CollectorState).
Implicit Types (d : gmap string entry) (rows : list (list float)).

Lemma evaluate_row_parse_raise self g i_m rct e :
  fs i_m = Raise e -> evaluate_row fs self g i_m rct = Raise e.
Proof. unfold evaluate_row. by intros ->. Qed.


Lemma row_body_run self g i_m iloc rct s d rows :
  od_lookup (class_name g) (gmvs_of s) = Some d ->
  d !! i_m = Some (NDArray rows) ->
  row_body fs self g i_m iloc rct s =
  match evaluate_row fs self g i_m rct with
  | Raise e =>
      if is_KeyError e
      then (mkCollectorState
              (od_set (class_name g) (<[i_m := EmptyList]> d) (gmvs_of s))
              (calls s ++ row_calls fs g i_m iloc), Ok Break)
      else (mkCollectorState (gmvs_of s) (calls s ++ row_calls fs g i_m iloc),
            Raise e)
  | Ok v =>
      match array_set_row rows iloc v with
      | Ok rows' =>
          (mkCollectorState
             (od_set (class_name g) (<[i_m := NDArray rows']> d) (gmvs_of s))
             (calls s ++ row_calls fs g i_m iloc), Ok Continue)
      | Raise e =>
          (mkCollectorState (gmvs_of s) (calls s ++ row_calls fs g i_m iloc),
           Raise e)
      end
  end.
Proof.
  destruct s as [t cs]. simpl. intros Ht Hd.
  unfold row_body, try_except_KeyError,
    DistanceSigmaIMTTrellis.call_get_mean_and_stddevs, evaluate_row, row_calls,
    table_setitem, table_getitem, od_getitem, dict_getitem, with_gmvs.
  unfold_monad. simpl.
  destruct (fs i_m) as [im|e]; simpl.
  2:{ destruct (is_KeyError e); simpl; rewrite ?Ht, ?app_nil_r; reflexivity. }
  destruct (get_mean_and_stddevs g (sctx self) rct (dctx self) im [stddevs self])
    as [[mean sigmas]|e]; simpl.
  2:{ destruct (is_KeyError e); simpl; rewrite ?Ht; reflexivity. }
  destruct (getitem_first sigmas) as [v|e] eqn:Hv; simpl.
  2:{ destruct (is_KeyError e); simpl; rewrite ?Ht; reflexivity. }
  rewrite Ht, Hd. simpl.
  destruct (array_set_row rows iloc v) as [rows'|e] eqn:Hset; simpl.
  - rewrite ?Ht. reflexivity.
  - by rewrite (array_set_row_raise _ _ _ _ Hset).
Qed.

Lemma rows_loop_run self g i_m rcts :
  forall iloc s d rows,
  od_lookup (class_name g) (gmvs_of s) = Some d ->
  d !! i_m = Some (NDArray rows) ->
  match rows_outcome fs self g i_m iloc rcts rows with
  | Ok e =>
      exists cs,
        for_enumerate iloc rcts (row_body fs self g i_m) s =
        (mkCollectorState
           (od_set (class_name g) (<[i_m := e]> d) (gmvs_of s)) cs, Ok tt)
  | Raise e =>
      is_KeyError e = false /\
      exists s', for_enumerate iloc rcts (row_body fs self g i_m) s = (s', Raise e)
  end.
Proof.
  induction rcts as [|rct rcts IH]; intros iloc s d rows Ht Hd; simpl.
  - exists (calls s). unfold ret. rewrite insert_id, od_set_id by done.
    by destruct s.
  - unfold bind. rewrite (row_body_run _ _ _ _ _ _ _ _ Ht Hd).
    destruct (evaluate_row fs self g i_m rct) as [v|e].
    + destruct (array_set_row rows iloc v) as [rows'|e] eqn:Hset.
      * specialize (IH (S iloc)
          (mkCollectorState
             (od_set (class_name g) (<[i_m := NDArray rows']> d) (gmvs_of s))
             (calls s ++ row_calls fs g i_m iloc))
          (<[i_m := NDArray rows']> d) rows').
        simpl in IH. rewrite od_lookup_set_eq, lookup_insert_eq in IH.
        specialize (IH eq_refl eq_refl).
        destruct (rows_outcome fs self g i_m (S iloc) rcts rows') as [e|e].
        -- destruct IH as [cs IH]. exists cs.
           by rewrite IH, insert_insert_eq, od_set_set.
        -- exact IH.
      * split; [by eapply array_set_row_raise|]. eauto.
    + destruct (is_KeyError e) eqn:Hk.
      * eexists. reflexivity.
      * split; [done|]. eauto.
Qed.

(** ** The loops over intensity measures and over GMPEs *)

Lemma collect_pair_unfold self g i_m s d :
  od_lookup (class_name g) (gmvs_of s) = Some d ->
  collect_pair fs self g i_m s =
  for_enumerate 0 (rctx self) (row_body fs self g i_m)
    (mkCollectorState
       (od_set (class_name g)
          (<[i_m := np_zeros (length (rctx self)) (nsites self)]> d) (gmvs_of s))
       (calls s)).
Proof.
  intros Ht. unfold collect_pair, table_setitem, od_getitem.
  unfold bind, modify, with_gmvs. by rewrite Ht.
Qed.

Lemma collect_pair_run self g i_m s d :
  od_lookup (class_name g) (gmvs_of s) = Some d ->
  match pair_outcome fs self g i_m with
  | Ok e =>
      exists cs,
        collect_pair fs self g i_m s =
        (mkCollectorState
           (od_set (class_name g) (<[i_m := e]> d) (gmvs_of s)) cs, Ok tt)
  | Raise e =>
      is_KeyError e = false /\
      exists s', collect_pair fs self g i_m s = (s', Raise e)
  end.
Proof.
  intros Ht. rewrite (collect_pair_unfold _ _ _ _ _ Ht).
  unfold pair_outcome, np_zeros.
  set (zeros := replicate (length (rctx self)) (replicate (nsites self) 0%Q)).
  pose proof (rows_loop_run self g i_m (rctx self) 0
    (mkCollectorState
       (od_set (class_name g) (<[i_m := NDArray zeros]> d) (gmvs_of s)) (calls s))
    (<[i_m := NDArray zeros]> d) zeros) as H.
  simpl in H. rewrite od_lookup_set_eq, lookup_insert_eq in H.
  specialize (H eq_refl eq_refl).
  destruct (rows_outcome fs self g i_m 0 (rctx self) zeros) as [e|e].
  - destruct H as [cs H]. exists cs. by rewrite H, insert_insert_eq, od_set_set.
  - exact H.
Qed.

Lemma imts_loop_run self g ims :
  forall s d,
  od_lookup (class_name g) (gmvs_of s) = Some d ->
  match imts_outcome fs self g ims d with
  | Ok d' =>
      exists cs,
        for_each ims (collect_pair fs self g) s =
        (mkCollectorState (od_set (class_name g) d' (gmvs_of s)) cs, Ok tt)
  | Raise e =>
      is_KeyError e = false /\
      exists s', for_each ims (collect_pair fs self g) s = (s', Raise e)
  end.
Proof.
  induction ims as [|i_m ims IH]; intros s d Ht; simpl.
  - exists (calls s). unfold ret. rewrite od_set_id by done. by destruct s.
  - unfold bind. pose proof (collect_pair_run self g i_m s d Ht) as Hp.
    destruct (pair_outcome fs self g i_m) as [e|e].
    + destruct Hp as [cs Hp]. rewrite Hp.
      specialize (IH
        (mkCollectorState
           (od_set (class_name g) (<[i_m := e]> d) (gmvs_of s)) cs)
        (<[i_m := e]> d)).
      simpl in IH. rewrite od_lookup_set_eq in IH. specialize (IH eq_refl).
      destruct (imts_outcome fs self g ims (<[i_m := e]> d)) as [d'|e'].
      * destruct IH as [cs' IH]. exists cs'. by rewrite IH, od_set_set.
      * exact IH.
    + destruct Hp as [Hk [s' Hp]]. rewrite Hp. eauto.
Qed.

Lemma collect_gmpe_run self g s :
  match imts_outcome fs self g (imts self) ∅ with
  | Ok d' =>
      exists cs,
        collect_gmpe fs self g s =
        (mkCollectorState (od_set (class_name g) d' (gmvs_of s)) cs, Ok tt)
  | Raise e =>
      is_KeyError e = false /\
      exists s', collect_gmpe fs self g s = (s', Raise e)
  end.
Proof.
  assert (Hunf : collect_gmpe fs self g s =
    for_each (imts self) (collect_pair fs self g)
      (mkCollectorState (od_set (class_name g) ∅ (gmvs_of s)) (calls s)))
    by reflexivity.
  rewrite Hunf. clear Hunf.
  pose proof (imts_loop_run self g (imts self)
    (mkCollectorState (od_set (class_name g) ∅ (gmvs_of s)) (calls s)) ∅) as H.
  simpl in H. rewrite od_lookup_set_eq in H. specialize (H eq_refl).
  destruct (imts_outcome fs self g (imts self) ∅) as [d'|e].
  - destruct H as [cs H]. exists cs. by rewrite H, od_set_set.
  - exact H.
Qed.

Lemma gsims_loop_run self gs :
  forall s,
  match gsims_outcome fs self gs (gmvs_of s) with
  | Ok t' =>
      exists cs,
        for_each gs (collect_gmpe fs self) s = (mkCollectorState t' cs, Ok tt)
  | Raise e =>
      is_KeyError e = false /\
      exists s', for_each gs (collect_gmpe fs self) s = (s', Raise e)
  end.
Proof.
  induction gs as [|g gs IH]; intros s; simpl.
  - exists (calls s). unfold ret. by destruct s.
  - unfold bind. pose proof (collect_gmpe_run self g s) as Hg.
    destruct (imts_outcome fs self g (imts self) ∅) as [d'|e].
    + destruct Hg as [cs Hg]. rewrite Hg.
      specialize (IH (mkCollectorState (od_set (class_name g) d' (gmvs_of s)) cs)).
      simpl in IH.
      destruct (gsims_outcome fs self gs (od_set (class_name g) d' (gmvs_of s))).
      * exact IH.
      * exact IH.
    + destruct Hg as [Hk [s' Hg]]. rewrite Hg. eauto.
Qed.

(** The collector computes [gsims_outcome]: the table it returns, or the
    exception it raises, depends on the library's answers only. *)
Lemma collector_run self s :
  (DistanceSigmaIMTTrellis.get_ground_motion_values fs self s).2
  = gsims_outcome fs self (gsims self) [].
Proof.
  unfold DistanceSigmaIMTTrellis.get_ground_motion_values.
  change (for_each (gsims self) _) with (for_each (gsims self) (collect_gmpe fs self)).
  unfold bind at 1 2. unfold modify at 1. unfold with_gmvs at 1.
  pose proof (gsims_loop_run self (gsims self)
                (mkCollectorState [] (calls s))) as H. simpl in H.
  destruct (gsims_outcome fs self (gsims self) []) as [t|e].
  - destruct H as [cs H]. rewrite H. reflexivity.
  - destruct H as [_ [s' H]]. rewrite H. reflexivity.
Qed.

(** ** What the row loop leaves, from the library's answers *)

Lemma rows_outcome_unsupported self g i_m pre rct post :
  forall iloc rows,
  Forall (fun row => length row = nsites self) rows ->
  iloc + length (pre ++ rct :: post) <= length rows ->
  (forall r, r ∈ pre -> row_stored fs self g i_m r) ->
  row_unsupported fs self g i_m rct ->
  rows_outcome fs self g i_m iloc (pre ++ rct :: post) rows = Ok EmptyList.
Proof.
  induction pre as [|r pre IH]; intros iloc rows Hw Hlen Hpre Hrct; simpl.
  - destruct Hrct as (e & -> & ->). reflexivity.
  - destruct (Hpre r) as (v & w & Hv & Hb); [apply elem_of_cons; auto|].
    rewrite Hv. simpl in Hlen.
    rewrite (array_set_row_Ok rows iloc (nsites self) v w Hw) by (done || lia).
    apply IH.
    + apply insert_row_widths; [done|]. by eapply broadcast_to_length.
    + rewrite length_insert. lia.
    + intros r' Hr'. apply Hpre, elem_of_cons. auto.
    + done.
Qed.

Lemma rows_outcome_raise self g i_m pre rct post e :
  forall iloc rows,
  Forall (fun row => length row = nsites self) rows ->
  iloc + length (pre ++ rct :: post) <= length rows ->
  (forall r, r ∈ pre -> row_stored fs self g i_m r) ->
  evaluate_row fs self g i_m rct = Raise e ->
  is_KeyError e = false ->
  rows_outcome fs self g i_m iloc (pre ++ rct :: post) rows = Raise e.
Proof.
  induction pre as [|r pre IH]; intros iloc rows Hw Hlen Hpre Hrct Hk; simpl.
  - by rewrite Hrct, Hk.
  - destruct (Hpre r) as (v & w & Hv & Hb); [apply elem_of_cons; auto|].
    rewrite Hv. simpl in Hlen.
    rewrite (array_set_row_Ok rows iloc (nsites self) v w Hw) by (done || lia).
    apply IH.
    + apply insert_row_widths; [done|]. by eapply broadcast_to_length.
    + rewrite length_insert. lia.
    + intros r' Hr'. apply Hpre, elem_of_cons. auto.
    + done.
    + done.
Qed.

Lemma rows_outcome_supported self g i_m rcts :
  forall iloc rows e,
  rows_outcome fs self g i_m iloc rcts rows = Ok e ->
  (forall rct, rct ∈ rcts -> ~ row_unsupported fs self g i_m rct) ->
  Forall (fun row => length row = nsites self) rows ->
  exists rows',
    e = NDArray rows'
    /\ length rows' = length rows
    /\ Forall (fun row => length row = nsites self) rows'
    /\ (forall j, j < iloc -> rows' !! j = rows !! j)
    /\ (forall j rct, rcts !! j = Some rct ->
         exists v r, evaluate_row fs self g i_m rct = Ok v
                     /\ broadcast_to v (nsites self) = Ok r
                     /\ rows' !! (iloc + j) = Some r).
Proof.
  induction rcts as [|rct rcts IH]; intros iloc rows e Hout Hsup Hw; simpl in Hout.
  - injection Hout as <-. exists rows. repeat split; try done.
  - destruct (evaluate_row fs self g i_m rct) as [v|e0] eqn:Hv.
    2:{ destruct (is_KeyError e0) eqn:Hk; [|discriminate].
        exfalso. apply (Hsup rct); [apply elem_of_cons; auto|].
        by exists e0. }
    destruct (array_set_row rows iloc v) as [rows1|] eqn:Hset; [|discriminate].
    destruct (array_set_row_inv _ _ _ _ _ Hw Hset) as (r & Hb & -> & Hlt).
    destruct (IH (S iloc) (<[iloc := r]> rows) e Hout) as (rows' & -> & Hlen & Hw' & Hold & Hnew).
    { intros r' Hr'. apply Hsup, elem_of_cons. auto. }
    { apply insert_row_widths; [done|]. by eapply broadcast_to_length. }
    exists rows'. rewrite length_insert in Hlen. repeat split; try done.
    + intros j Hj. rewrite Hold by lia. apply list_lookup_insert_ne. lia.
    + intros [|j] rct' Hj; simpl in Hj.
      * injection Hj as <-. exists v, r. repeat split; try done.
        rewrite Nat.add_0_r, Hold by lia. by apply list_lookup_insert_eq.
      * destruct (Hnew j rct' Hj) as (v' & r' & Hv' & Hb' & Hr').
        exists v', r'. repeat split; try done.
        by rewrite Nat.add_succ_r.
Qed.

Lemma rows_outcome_benign self g i_m rcts :
  forall iloc rows,
  Forall (fun row => length row = nsites self) rows ->
  iloc + length rcts <= length rows ->
  (forall rct, rct ∈ rcts ->
     row_stored fs self g i_m rct \/ row_unsupported fs self g i_m rct) ->
  exists e, rows_outcome fs self g i_m iloc rcts rows = Ok e.
Proof.
  induction rcts as [|rct rcts IH]; intros iloc rows Hw Hlen Hall; simpl.
  - eauto.
  - destruct (Hall rct) as [(v & r & Hv & Hb)|(e & He & Hk)];
      [apply elem_of_cons; auto| |].
    + rewrite Hv. simpl in Hlen.
      rewrite (array_set_row_Ok rows iloc (nsites self) v r Hw) by (done || lia).
      apply IH.
      * apply insert_row_widths; [done|]. by eapply broadcast_to_length.
      * rewrite length_insert. lia.
      * intros r' Hr'. apply Hall, elem_of_cons. auto.
    + rewrite He, Hk. eauto.
Qed.

Lemma zeros_widths (nrows ncols : nat) :
  Forall (fun row : list float => length row = ncols)
    (replicate nrows (replicate ncols 0%Q)).
Proof. apply Forall_replicate, length_replicate. Qed.

Lemma stored_before_take self g i_m k r :
  rows_stored_before fs self g i_m k ->
  r ∈ take k (rctx self) -> row_stored fs self g i_m r.
Proof.
  intros Hpre Hr. apply list_elem_of_lookup in Hr as [j Hj].
  apply lookup_take_Some in Hj as [Hj Hlt]. by eapply Hpre.
Qed.

Lemma pair_outcome_unsupported self g i_m k rct :
  rctx self !! k = Some rct ->
  rows_stored_before fs self g i_m k ->
  row_unsupported fs self g i_m rct ->
  pair_outcome fs self g i_m = Ok EmptyList.
Proof.
  intros Hk Hpre Hrct. unfold pair_outcome.
  rewrite <- (take_drop_middle _ _ _ Hk) at 1.
  apply rows_outcome_unsupported; try done.
  - apply zeros_widths.
  - rewrite (take_drop_middle _ _ _ Hk), length_replicate. lia.
  - intros r Hr. by eapply stored_before_take.
Qed.

Lemma pair_outcome_raise self g i_m k rct e :
  rctx self !! k = Some rct ->
  rows_stored_before fs self g i_m k ->
  evaluate_row fs self g i_m rct = Raise e ->
  is_KeyError e = false ->
  pair_outcome fs self g i_m = Raise e.
Proof.
  intros Hk Hpre Hrct He. unfold pair_outcome.
  rewrite <- (take_drop_middle _ _ _ Hk) at 1.
  apply rows_outcome_raise; try done.
  - apply zeros_widths.
  - rewrite (take_drop_middle _ _ _ Hk), length_replicate. lia.
  - intros r Hr. by eapply stored_before_take.
Qed.

Lemma pair_outcome_supported self g i_m e :
  pair_outcome fs self g i_m = Ok e ->
  (forall rct, rct ∈ rctx self -> ~ row_unsupported fs self g i_m rct) ->
  exists rows,
    e = NDArray rows
    /\ length rows = length (rctx self)
    /\ Forall (fun row => length row = nsites self) rows
    /\ (forall k rct, rctx self !! k = Some rct ->
         exists v r, evaluate_row fs self g i_m rct = Ok v
                     /\ broadcast_to v (nsites self) = Ok r
                     /\ rows !! k = Some r).
Proof.
  intros Hout Hsup. unfold pair_outcome in Hout.
  destruct (rows_outcome_supported _ _ _ _ _ _ _ Hout Hsup (zeros_widths _ _))
    as (rows & -> & Hlen & Hw & _ & Hrows).
  exists rows. rewrite length_replicate in Hlen. repeat split; done.
Qed.

Lemma pair_outcome_benign self g i_m :
  pair_benign fs self g i_m -> exists e, pair_outcome fs self g i_m = Ok e.
Proof.
  intros Hb. unfold pair_outcome. apply rows_outcome_benign.
  - apply zeros_widths.
  - rewrite length_replicate. lia.
  - exact Hb.
Qed.

(** ** What the outer loops leave *)

Lemma imts_outcome_lookup self g ims :
  forall d d',
  imts_outcome fs self g ims d = Ok d' ->
  (forall i_m, i_m ∈ ims ->
     exists e, pair_outcome fs self g i_m = Ok e /\ d' !! i_m = Some e)
  /\ (forall i_m, i_m ∉ ims -> d' !! i_m = d !! i_m).
Proof.
  induction ims as [|a ims IH]; intros d d' Hout; simpl in Hout.
  - injection Hout as <-. split; [|done]. intros i_m Hi. by apply elem_of_nil in Hi.
  - destruct (pair_outcome fs self g a) as [e|] eqn:Hp; [|discriminate].
    destruct (IH _ _ Hout) as [Hin Hnot]. split.
    + intros i_m Hi. destruct (decide (i_m ∈ ims)) as [Hi'|Hi']; [by apply Hin|].
      apply elem_of_cons in Hi as [->|Hi]; [|done].
      exists e. split; [done|]. rewrite Hnot by done. apply lookup_insert_eq.
    + intros i_m Hi. apply not_elem_of_cons in Hi as [Hne Hi].
      rewrite Hnot by done. by apply lookup_insert_ne.
Qed.

Lemma imts_outcome_returns self g ims :
  forall d,
  (forall i_m, i_m ∈ ims -> exists e, pair_outcome fs self g i_m = Ok e) ->
  exists d', imts_outcome fs self g ims d = Ok d'.
Proof.
  induction ims as [|a ims IH]; intros d Hall; simpl; [eauto|].
  destruct (Hall a) as [e He]; [apply elem_of_cons; auto|]. rewrite He.
  apply IH. intros i_m Hi. apply Hall, elem_of_cons. auto.
Qed.

Lemma imts_outcome_raise self g is1 i_m is2 e :
  forall d,
  (forall i', i' ∈ is1 -> exists e', pair_outcome fs self g i' = Ok e') ->
  pair_outcome fs self g i_m = Raise e ->
  imts_outcome fs self g (is1 ++ i_m :: is2) d = Raise e.
Proof.
  induction is1 as [|a is1 IH]; intros d Hall Hp; simpl.
  - by rewrite Hp.
  - destruct (Hall a) as [e' He']; [apply elem_of_cons; auto|]. rewrite He'.
    apply IH; [|done]. intros i' Hi'. apply Hall, elem_of_cons. auto.
Qed.

Lemma gsims_outcome_other_names self gs (n : string) :
  forall t t',
  gsims_outcome fs self gs t = Ok t' ->
  (forall g, g ∈ gs -> class_name g <> n) ->
  od_lookup n t' = od_lookup n t.
Proof.
  induction gs as [|g gs IH]; intros t t' Hout Hne; simpl in Hout.
  - by injection Hout as <-.
  - destruct (imts_outcome fs self g (imts self) ∅) as [d|]; [|discriminate].
    rewrite (IH _ _ Hout).
    + apply od_lookup_set_ne, Hne, elem_of_cons. auto.
    + intros g' Hg'. apply Hne, elem_of_cons. auto.
Qed.

Lemma gsims_outcome_lookup self gs1 g gs2 :
  forall t t',
  gsims_outcome fs self (gs1 ++ g :: gs2) t = Ok t' ->
  (forall g', g' ∈ gs2 -> class_name g' <> class_name g) ->
  exists d, imts_outcome fs self g (imts self) ∅ = Ok d
            /\ od_lookup (class_name g) t' = Some d.
Proof.
  induction gs1 as [|a gs1 IH]; intros t t' Hout Hlast; simpl in Hout.
  - destruct (imts_outcome fs self g (imts self) ∅) as [d|]; [|discriminate].
    exists d. split; [done|].
    rewrite (gsims_outcome_other_names _ _ _ _ _ Hout Hlast).
    apply od_lookup_set_eq.
  - destruct (imts_outcome fs self a (imts self) ∅) as [d|]; [|discriminate].
    by eapply IH.
Qed.

Lemma gsims_outcome_returns self gs :
  forall t,
  (forall g i_m, g ∈ gs -> i_m ∈ imts self ->
     exists e, pair_outcome fs self g i_m = Ok e) ->
  exists t', gsims_outcome fs self gs t = Ok t'.
Proof.
  induction gs as [|g gs IH]; intros t Hall; simpl; [eauto|].
  destruct (imts_outcome_returns self g (imts self) ∅) as [d Hd].
  { intros i_m Hi. apply Hall; [apply elem_of_cons; auto|done]. }
  rewrite Hd. apply IH. intros g' i_m Hg'. apply Hall, elem_of_cons. auto.
Qed.

Lemma gsims_outcome_raise self gs1 g gs2 e :
  forall t,
  (forall g' i_m, g' ∈ gs1 -> i_m ∈ imts self ->
     exists e', pair_outcome fs self g' i_m = Ok e') ->
  imts_outcome fs self g (imts self) ∅ = Raise e ->
  gsims_outcome fs self (gs1 ++ g :: gs2) t = Raise e.
Proof.
  induction gs1 as [|a gs1 IH]; intros t Hall Hg; simpl.
  - by rewrite Hg.
  - destruct (imts_outcome_returns self a (imts self) ∅) as [d Hd].
    { intros i_m Hi. apply Hall; [apply elem_of_cons; auto|done]. }
    rewrite Hd. apply IH; [|done].
    intros g' i_m Hg'. apply Hall, elem_of_cons. auto.
Qed.


(** The final entry of a pair whose GMPE is the last of its class. *)
Lemma collector_entry self s t g i_m :
  (DistanceSigmaIMTTrellis.get_ground_motion_values fs self s).2 = Ok t ->
  last_of_its_class g (gsims self) ->
  i_m ∈ imts self ->
  exists e, pair_outcome fs self g i_m = Ok e
            /\ table_getitem t (class_name g) i_m = Ok e.
Proof.
  rewrite collector_run. intros Hout (gs1 & gs2 & Hgs & Hlast) Hi.
  rewrite Hgs in Hout.
  destruct (gsims_outcome_lookup _ _ _ _ _ _ Hout Hlast) as (d & Hd & Ht).
  destruct (imts_outcome_lookup _ _ _ _ _ Hd) as [Hin _].
  destruct (Hin i_m Hi) as (e & He & Hde).
  exists e. split; [done|].
  unfold table_getitem, od_getitem, dict_getitem. by rewrite Ht, Hde.
Qed.

(** ** The evaluation calls of a pair that breaks *)



End CollectorLemmas.

(** ** The plotting loop *)

Section PlotLoopLemmas.

Context {SitesContext RuptureContext IMT : Type}.
#[local] Abbreviation Trellis := (Trellis SitesContext RuptureContext IMT).
Variables (m : draw_method) (sl : M PlotState unit).
Variables (self : Trellis) (i_m : string).

Hypothesis sl_lines : forall s, ax_lines (ax (sl s).1) = ax_lines (ax s).
Hypothesis sl_xlim : forall s, ax_xlim_request (ax (sl s).1) = ax_xlim_request (ax s).
Hypothesis sl_raise : forall s s' e, sl s = (s', Raise e) -> is_KeyError e = true.

Lemma plot_loop_added (gmvs : Table) (s : PlotState) :
  exists new,
    ax_lines (ax (plot_loop m sl self i_m gmvs s).1) = ax_lines (ax s) ++ new
    /\ Forall (fun l =>
         drawn_by l = m
         /\ getattr (dctx self) (distance_type self) = Ok (xdata l)
         /\ label l ∈ class_name <$> gsims self
         /\ table_row0 gmvs (label l) i_m = Ok (ydata l)) new
    /\ ((plot_loop m sl self i_m gmvs s).2 = Ok tt ->
        length new = length (gsims self)).
Proof using sl_lines.
  unfold plot_loop.
  destruct (getattr (dctx self) (distance_type self)) as [dv|e] eqn:Hdv.
  2:{ exists []. simpl. rewrite app_nil_r. by repeat split. }
  destruct (String.eqb (plot_type self) "loglog"
            || String.eqb (plot_type self) "semilogy").
  2:{ exists []. simpl. rewrite app_nil_r. by repeat split. }
  destruct (plot_steps_lines m sl dv gmvs i_m sl_lines
              (class_name <$> gsims self) (class_name <$> gsims self)
              (reset_lists s)) as (new & Hl & Hok & Hlen); [done|].
  exists new. split; [exact Hl|]. split.
  - eapply Forall_impl; [exact Hok|]. intros l (H1 & H2 & H3 & H4).
    rewrite H2. by repeat split.
  - intros Hr. rewrite Hlen by done. apply length_fmap.
Qed.

Lemma plot_loop_xlim (gmvs : Table) (s s' : PlotState) :
  plot_loop m sl self i_m gmvs s = (s', Ok tt) ->
  gsims self <> [] ->
  exists dv lo hi,
    getattr (dctx self) (distance_type self) = Ok dv
    /\ head dv = Some lo /\ last dv = Some hi
    /\ ax_xlim_request (ax s') = Some (lo, hi).
Proof using sl_xlim.
  unfold plot_loop. intros Hrun Hne.
  destruct (getattr (dctx self) (distance_type self)) as [dv|e]; [|discriminate].
  destruct (String.eqb (plot_type self) "loglog"
            || String.eqb (plot_type self) "semilogy"); [|discriminate].
  exists dv.
  cut (exists lo hi, head dv = Some lo /\ last dv = Some hi
                     /\ ax_xlim_request (ax s') = Some (lo, hi)).
  { intros (lo & hi & H). by exists lo, hi. }
  eapply (for_each_last_post
            (fun t => exists lo hi, head dv = Some lo /\ last dv = Some hi
                                    /\ ax_xlim_request (ax t) = Some (lo, hi)));
    [| |exact Hrun].
  - by destruct (gsims self).
  - intros n t t' _ Hstep. by eapply plot_step_xlim.
Qed.

Lemma plot_loop_post (P : PlotState -> Prop) (gmvs : Table) (s s' : PlotState) :
  (forall t t', sl t = (t', Ok tt) -> P t') ->
  plot_loop m sl self i_m gmvs s = (s', Ok tt) ->
  gsims self <> [] ->
  P s'.
Proof.
  unfold plot_loop. intros Hsl Hrun Hne.
  destruct (getattr (dctx self) (distance_type self)) as [dv|e]; [|discriminate].
  destruct (String.eqb (plot_type self) "loglog"
            || String.eqb (plot_type self) "semilogy"); [|discriminate].
  eapply (for_each_last_post P); [| |exact Hrun].
  - by destruct (gsims self).
  - intros n t t' _. rewrite plot_step_run.
    destruct (table_row0 gmvs n i_m) as [y|]; [|discriminate].
    destruct (Nat.eqb (length dv) (length y)); [|discriminate].
    destruct (getitem_first dv), (getitem_last dv); try discriminate.
    apply Hsl.
Qed.

Lemma plot_loop_assertion (gmvs : Table) (s : PlotState) (dv : list float) :
  getattr (dctx self) (distance_type self) = Ok dv ->
  plot_type self <> "loglog" ->
  plot_type self <> "semilogy" ->
  plot_loop m sl self i_m gmvs s = (reset_lists s, Raise AssertionError).
Proof.
  unfold plot_loop. intros -> H1 H2.
  apply String.eqb_neq in H1, H2. by rewrite H1, H2.
Qed.

Lemma plot_loop_no_assertion (gmvs : Table) (s : PlotState) :
  plot_type self = "loglog" \/ plot_type self = "semilogy" ->
  (plot_loop m sl self i_m gmvs s).2 <> Raise AssertionError.
Proof using sl_raise.
  unfold plot_loop. intros Hpt.
  destruct (getattr (dctx self) (distance_type self)) as [dv|e] eqn:Hdv.
  2:{ unfold getattr in Hdv. destruct (dctx self !! distance_type self); [done|].
      injection Hdv as <-. simpl. discriminate. }
  assert (String.eqb (plot_type self) "loglog"
          || String.eqb (plot_type self) "semilogy" = true) as ->.
  { destruct Hpt as [->| ->]; reflexivity. }
  destruct (for_each _ _ _) as [s' [[]|e]] eqn:Hrun; simpl; [discriminate|].
  intros [= ->]. by eapply (plot_steps_raise m sl dv gmvs i_m sl_raise).
Qed.

Lemma plot_loop_no_attribute (gmvs : Table) (s : PlotState) :
  dctx self !! distance_type self = None ->
  plot_loop m sl self i_m gmvs s
  = (reset_lists s, Raise (AttributeError (distance_type self))).
Proof. unfold plot_loop, getattr. by intros ->. Qed.

(** A GMPE whose entry is the empty list stops the loop. *)
Lemma plot_loop_empty_entry (gmvs : Table) (s : PlotState)
    (g : GMPE SitesContext RuptureContext IMT) :
  g ∈ gsims self ->
  table_getitem gmvs (class_name g) i_m = Ok EmptyList ->
  (plot_loop m sl self i_m gmvs s).2 <> Ok tt.
Proof.
  intros Hg He. unfold plot_loop.
  destruct (getattr (dctx self) (distance_type self)) as [dv|e]; [|done].
  destruct (String.eqb (plot_type self) "loglog"
            || String.eqb (plot_type self) "semilogy"); [|done].
  apply (for_each_never_returns _ _ (class_name g)).
  - apply list_elem_of_fmap. by exists g.
  - intros t. by rewrite plot_step_run, (table_row0_EmptyList _ _ _ He).
Qed.

(** Only row 0 of the entries is read. *)
Lemma plot_loop_row0 (gmvs gmvs' : Table) (s : PlotState) :
  (forall g, g ∈ gsims self ->
     table_row0 gmvs' (class_name g) i_m = table_row0 gmvs (class_name g) i_m) ->
  plot_loop m sl self i_m gmvs' s = plot_loop m sl self i_m gmvs s.
Proof.
  intros Hrow. unfold plot_loop.
  destruct (getattr (dctx self) (distance_type self)) as [dv|e]; [|reflexivity].
  destruct (String.eqb (plot_type self) "loglog"
            || String.eqb (plot_type self) "semilogy"); [|reflexivity].
  apply for_each_ext. intros n Hn t.
  apply list_elem_of_fmap in Hn as (g & -> & Hg).
  by rewrite !plot_step_run, Hrow.
Qed.


End PlotLoopLemmas.

(** ** Plotting loops that return *)

(** A loop of iterations that can each be drawn and labelled returns. *)
Lemma plot_steps_return (m : draw_method) (sl : M PlotState unit)
    (dv : list float) (gmvs : Table) (i_m : string) (lo hi : float)
    (names : list string) :
  (forall n, n ∈ names ->
     exists y, table_row0 gmvs n i_m = Ok y /\ length dv = length y) ->
  head dv = Some lo -> last dv = Some hi ->
  (forall t, (sl t).2 = Ok tt) ->
  forall t, (for_each names (plot_step m sl dv gmvs i_m) t).2 = Ok tt.
Proof.
  intros Hrows Hlo Hhi Hsl. induction names as [|n names IH]; intros t; [done|].
  simpl. unfold bind.
  destruct (Hrows n) as (y & Hy & Hlen); [apply elem_of_cons; auto|].
  rewrite plot_step_run, Hy, Hlen, Nat.eqb_refl.
  unfold getitem_first, getitem_last. rewrite Hlo, Hhi.
  pose proof (Hsl (after_draw (mkLine m dv y "-" 2 n) lo hi t)) as Hr.
  destruct (sl _) as [t1 [[]|e]]; simpl in Hr; [|discriminate].
  apply IH. intros k Hk. apply Hrows, elem_of_cons. auto.
Qed.

(** A plotting method returns, with one line per GMPE drawn by its method,
    when the distance values are there and not empty, the plot-scale string
    is valid, every GMPE has a first row of as many values as there are
    distances, and the label method returns. *)
Lemma plot_loop_returns {SitesContext RuptureContext IMT : Type}
    (m : draw_method) (sl : M PlotState unit)
    (self : Trellis SitesContext RuptureContext IMT) (i_m : string)
    (gmvs : Table) (s : PlotState) (dv : list float) :
  (forall t, ax_lines (ax (sl t).1) = ax_lines (ax t)) ->
  (forall t, (sl t).2 = Ok tt) ->
  getattr (dctx self) (distance_type self) = Ok dv -> dv <> [] ->
  plot_type self = "loglog" \/ plot_type self = "semilogy" ->
  (forall g, g ∈ gsims self ->
     exists y, table_row0 gmvs (class_name g) i_m = Ok y
               /\ length y = length dv) ->
  returns_drawing (plot_loop m sl self i_m gmvs) s (length (gsims self)) m.
Proof.
  intros Hlines Hsl Hdv Hne Hpt Hrows.
  destruct (plot_loop_added m sl self i_m Hlines gmvs s) as (new & Ha & Hok & Hlen).
  assert (Hret : (plot_loop m sl self i_m gmvs s).2 = Ok tt).
  { unfold plot_loop. rewrite Hdv.
    assert (String.eqb (plot_type self) "loglog"
            || String.eqb (plot_type self) "semilogy" = true) as ->.
    { destruct Hpt as [->| ->]; reflexivity. }
    destruct dv as [|d0 dv'] eqn:Edv; [done|]. rewrite <- Edv in *.
    assert (exists lo, head dv = Some lo) as [lo Hlo] by (rewrite Edv; by eexists).
    assert (exists hi, last dv = Some hi) as [hi Hhi].
    { destruct (last dv) as [hi|] eqn:E; [by eexists|].
      apply last_None in E. congruence. }
    apply (plot_steps_return m sl dv gmvs i_m lo hi); try done.
    intros n Hn. apply list_elem_of_fmap in Hn as (g & -> & Hg).
    destruct (Hrows g Hg) as (y & Hy & Hl). by exists y. }
  destruct (plot_loop m sl self i_m gmvs s) as [s' r] eqn:Hrun.
  simpl in Hret, Ha, Hlen. subst r.
  exists s', new. split_and!; [done|done|by apply Hlen|].
  eapply Forall_impl; [exact Hok|]. by intros l (H & _).
Qed.

(** * Properties of the renderers *)

Section RendererProperties.

Context {SitesContext RuptureContext IMT : Type}.
#[local] Abbreviation Trellis := (Trellis SitesContext RuptureContext IMT).
Implicit Types (self : Trellis) (s : PlotState) (gmvs : Table).

(** C3. Both renderers read the same two plot-scale strings and give them
    different meanings.  In the mean renderer "semilogy" selects the
    semi-log-y draw call and "loglog" the log-log draw call; in the
    standard-deviation renderer "loglog" selects the semi-log-x draw call
    and "semilogy" the linear one.  Every line a call adds to the axes was
    drawn by the selected method, and a call that returns has drawn one
    line per GMPE.  A call does draw and return: when the distance context
    has a non-empty array for the distance type, the table holds for every
    GMPE an array whose first row has as many values as there are
    distances, and the label tables have the keys looked up, the call
    returns having added one line per GMPE, each drawn by the selected
    method. *)
Theorem plot_scale_selects_draw_method self (i_m : string) gmvs :
  (plot_type self = "semilogy" ->
   draws_with (DistanceIMTTrellis._build_plot self i_m gmvs)
     (length (gsims self)) semilogy)
  /\ (plot_type self = "loglog" ->
      draws_with (DistanceIMTTrellis._build_plot self i_m gmvs)
        (length (gsims self)) loglog)
  /\ (plot_type self = "loglog" ->
      draws_with (DistanceSigmaIMTTrellis._build_plot self i_m gmvs)
        (length (gsims self)) semilogx)
  /\ (plot_type self = "semilogy" ->
      draws_with (DistanceSigmaIMTTrellis._build_plot self i_m gmvs)
        (length (gsims self)) plot)
  /\ (forall s dv dname,
       getattr (dctx self) (distance_type self) = Ok dv -> dv <> [] ->
       (forall g, g ∈ gsims self ->
          exists y, table_row0 gmvs (class_name g) i_m = Ok y
                    /\ length y = length dv) ->
       DISTANCE_LABEL_MAP !! distance_type self = Some dname ->
       (plot_type self = "loglog" ->
        returns_drawing (DistanceSigmaIMTTrellis._build_plot self i_m gmvs) s
          (length (gsims self)) semilogx)
       /\ (plot_type self = "semilogy" ->
           returns_drawing (DistanceSigmaIMTTrellis._build_plot self i_m gmvs) s
             (length (gsims self)) plot)
       /\ (forall units,
            PLOT_UNITS !! (if str_contains "SA(" i_m then "SA" else i_m)
              = Some units ->
            (plot_type self = "semilogy" ->
             returns_drawing (DistanceIMTTrellis._build_plot self i_m gmvs) s
               (length (gsims self)) semilogy)
            /\ (plot_type self = "loglog" ->
                returns_drawing (DistanceIMTTrellis._build_plot self i_m gmvs) s
                  (length (gsims self)) loglog))).
Proof.
  split; [|split; [|split; [|split]]].
  1-4: intros Hpt s.
  1,2: rewrite mean_build_plot_run;
       destruct (plot_loop_added (mean_method (plot_type self))
                   (DistanceIMTTrellis._set_labels self i_m) self i_m
                   (mean_set_labels_lines self i_m) gmvs s)
         as (new & Hl & Hok & Hlen).
  3,4: rewrite sigma_build_plot_run;
       destruct (plot_loop_added (sigma_method (plot_type self))
                   (DistanceSigmaIMTTrellis._set_labels self i_m) self i_m
                   (sigma_set_labels_lines self i_m) gmvs s)
         as (new & Hl & Hok & Hlen).
  1-4: exists new; split; [exact Hl|]; split; [|exact Hlen].
  1-4: eapply Forall_impl; [exact Hok|]; intros l (-> & _); by rewrite Hpt.
  intros s dv dname Hdv Hne Hrows Hd.
  assert (Hsigma : forall pt, plot_type self = pt ->
            pt = "loglog" \/ pt = "semilogy" ->
            returns_drawing (DistanceSigmaIMTTrellis._build_plot self i_m gmvs) s
              (length (gsims self)) (sigma_method pt)).
  { intros pt <- Hpt. unfold returns_drawing. rewrite sigma_build_plot_run.
    apply (plot_loop_returns _ _ self i_m gmvs s dv); try done.
    - apply sigma_set_labels_lines.
    - intros t. by rewrite sigma_set_labels_run, Hd. }
  assert (Hmean : forall units pt,
            PLOT_UNITS !! (if str_contains "SA(" i_m then "SA" else i_m)
              = Some units ->
            plot_type self = pt -> pt = "loglog" \/ pt = "semilogy" ->
            returns_drawing (DistanceIMTTrellis._build_plot self i_m gmvs) s
              (length (gsims self)) (mean_method pt)).
  { intros units pt Hu <- Hpt. unfold returns_drawing. rewrite mean_build_plot_run.
    apply (plot_loop_returns _ _ self i_m gmvs s dv); try done.
    - apply mean_set_labels_lines.
    - intros t. rewrite mean_set_labels_run, Hd. cbv zeta. by rewrite Hu. }
  split_and!.
  - intros Hpt. apply (Hsigma "loglog" Hpt). by left.
  - intros Hpt. apply (Hsigma "semilogy" Hpt). by right.
  - intros units Hu. split; intros Hpt.
    + apply (Hmean units "semilogy" Hu Hpt). by right.
    + apply (Hmean units "loglog" Hu Hpt). by left.
Qed.

(** C4, as amended.  When the distance context has the configured
    distance-type attribute, both renderers fail with an assertion error
    whenever the plot-scale string is neither "loglog" nor "semilogy", with
    the axes untouched; the attribute is read before the assertion, so
    without it the call fails with an attribute error instead.  When the
    plot-scale string is one of the two values, no call ends in an
    assertion error. *)
Theorem plot_scale_assertion self (i_m : string) gmvs s :
  (forall dv,
     getattr (dctx self) (distance_type self) = Ok dv ->
     plot_type self <> "loglog" -> plot_type self <> "semilogy" ->
     DistanceIMTTrellis._build_plot self i_m gmvs s
       = (reset_lists s, Raise AssertionError)
     /\ DistanceSigmaIMTTrellis._build_plot self i_m gmvs s
       = (reset_lists s, Raise AssertionError)
     /\ ax (reset_lists s) = ax s)
  /\ (dctx self !! distance_type self = None ->
      DistanceIMTTrellis._build_plot self i_m gmvs s
        = (reset_lists s, Raise (AttributeError (distance_type self)))
      /\ DistanceSigmaIMTTrellis._build_plot self i_m gmvs s
        = (reset_lists s, Raise (AttributeError (distance_type self))))
  /\ (plot_type self = "loglog" \/ plot_type self = "semilogy" ->
      (DistanceIMTTrellis._build_plot self i_m gmvs s).2 <> Raise AssertionError
      /\ (DistanceSigmaIMTTrellis._build_plot self i_m gmvs s).2
         <> Raise AssertionError).
Proof.
  rewrite mean_build_plot_run, sigma_build_plot_run. repeat split.
  - by eapply plot_loop_assertion.
  - by eapply plot_loop_assertion.
  - by apply plot_loop_no_attribute.
  - by apply plot_loop_no_attribute.
  - apply plot_loop_no_assertion; [apply mean_set_labels_raise|done].
  - apply plot_loop_no_assertion; [apply sigma_set_labels_raise|done].
Qed.

(** C7, as amended.  When a rendering call that has at least one GMPE
    returns, the x-limits it last requested of the axes, the two arguments
    of [set_xlim], are the first and the last of the distance values read
    from the distance context; they bound every distance value, and so are
    the minimum and the maximum, when the values are in ascending order.
    The view limits the charting library derives from the request are not
    the program's and are not stated. *)
Theorem xlim_first_last self (i_m : string) gmvs s s' :
  gsims self <> [] ->
  DistanceIMTTrellis._build_plot self i_m gmvs s = (s', Ok tt)
  \/ DistanceSigmaIMTTrellis._build_plot self i_m gmvs s = (s', Ok tt) ->
  exists dv lo hi,
    getattr (dctx self) (distance_type self) = Ok dv
    /\ head dv = Some lo /\ last dv = Some hi
    /\ ax_xlim_request (ax s') = Some (lo, hi)
    /\ (Sorted Qle dv -> forall d, d ∈ dv -> (lo <= d)%Q /\ (d <= hi)%Q).
Proof.
  intros Hne Hrun.
  assert (exists dv lo hi,
    getattr (dctx self) (distance_type self) = Ok dv
    /\ head dv = Some lo /\ last dv = Some hi
    /\ ax_xlim_request (ax s') = Some (lo, hi)) as (dv & lo & hi & Hdv & Hlo & Hhi & Hlim).
  { destruct Hrun as [Hrun|Hrun].
    - rewrite mean_build_plot_run in Hrun.
      eapply (plot_loop_xlim _ _ self i_m (mean_set_labels_xlim self i_m));
        [exact Hrun|exact Hne].
    - rewrite sigma_build_plot_run in Hrun.
      eapply (plot_loop_xlim _ _ self i_m (sigma_set_labels_xlim self i_m));
        [exact Hrun|exact Hne]. }
  exists dv, lo, hi. repeat split; try done;
    by eapply (sorted_first_last dv lo hi).
Qed.

(** C8.  The label policy.  For a distance type with display name [dname]
    in the distance-label table, both label methods set the x label to
    "dname (km)".  The standard-deviation method sets the y label to the
    statistic name followed by " Std. Dev.".  The mean method sets it to
    "Median IM (unit)", where the unit is the SA entry of the unit table
    whenever "SA(" occurs in the IM string and the entry of the IM string
    itself otherwise.  These are the labels of the axes after every
    rendering call that returns and has at least one GMPE. *)
Theorem label_policy self (i_m dname : string) :
  DISTANCE_LABEL_MAP !! distance_type self = Some dname ->
  (forall s,
     DistanceSigmaIMTTrellis._set_labels self i_m s
     = (labelled (dname +:+ " (km)") (stddevs self +:+ " Std. Dev.") s, Ok tt))
  /\ (forall units s,
       substring_of "SA(" i_m -> PLOT_UNITS !! "SA" = Some units ->
       DistanceIMTTrellis._set_labels self i_m s
       = (labelled (dname +:+ " (km)")
            ("Median " +:+ i_m +:+ " (" +:+ units +:+ ")") s, Ok tt))
  /\ (forall units s,
       ~ substring_of "SA(" i_m -> PLOT_UNITS !! i_m = Some units ->
       DistanceIMTTrellis._set_labels self i_m s
       = (labelled (dname +:+ " (km)")
            ("Median " +:+ i_m +:+ " (" +:+ units +:+ ")") s, Ok tt))
  /\ (forall gmvs s s',
       gsims self <> [] ->
       DistanceSigmaIMTTrellis._build_plot self i_m gmvs s = (s', Ok tt) ->
       ax_xlabel (ax s') = Some (dname +:+ " (km)", 16)
       /\ ax_ylabel (ax s') = Some (stddevs self +:+ " Std. Dev.", 16))
  /\ (forall gmvs s s',
       gsims self <> [] ->
       DistanceIMTTrellis._build_plot self i_m gmvs s = (s', Ok tt) ->
       exists units,
         PLOT_UNITS !! (if str_contains "SA(" i_m then "SA" else i_m) = Some units
         /\ ax_xlabel (ax s') = Some (dname +:+ " (km)", 16)
         /\ ax_ylabel (ax s')
            = Some ("Median " +:+ i_m +:+ " (" +:+ units +:+ ")", 16)).
Proof.
  intros Hd. split; [|split; [|split; [|split]]].
  - intros s. by rewrite sigma_set_labels_run, Hd.
  - intros units s Hsub Hu. apply str_contains_spec in Hsub.
    rewrite mean_set_labels_run, Hd, Hsub. cbv zeta. by rewrite Hu.
  - intros units s Hsub Hu. rewrite mean_set_labels_run, Hd.
    destruct (str_contains "SA(" i_m) eqn:E.
    + exfalso. by apply Hsub, str_contains_spec.
    + cbv zeta. by rewrite Hu.
  - intros gmvs s s' Hne Hrun. rewrite sigma_build_plot_run in Hrun.
    eapply (plot_loop_post _ _ self i_m
              (fun t => ax_xlabel (ax t) = Some (dname +:+ " (km)", 16)
                        /\ ax_ylabel (ax t)
                           = Some (stddevs self +:+ " Std. Dev.", 16)));
      [|exact Hrun|exact Hne].
    intros t t'. rewrite sigma_set_labels_run, Hd. by intros [= <-].
  - intros gmvs s s' Hne Hrun. rewrite mean_build_plot_run in Hrun.
    eapply (plot_loop_post _ _ self i_m
              (fun t => exists units,
                 PLOT_UNITS !! (if str_contains "SA(" i_m then "SA" else i_m)
                   = Some units
                 /\ ax_xlabel (ax t) = Some (dname +:+ " (km)", 16)
                 /\ ax_ylabel (ax t)
                    = Some ("Median " +:+ i_m +:+ " (" +:+ units +:+ ")", 16)));
      [|exact Hrun|exact Hne].
    intros t t'. rewrite mean_set_labels_run, Hd. cbv zeta.
    destruct (PLOT_UNITS !! _) as [units|]; [|discriminate].
    intros [= <-]. by exists units.
Qed.


(** C10.  Only row 0 of a table entry is plotted.  Every line that a
    rendering call adds to the axes carries, for one of the GMPEs, the
    first row of that GMPE's array for the intensity measure as its
    ordinates; and a table that agrees with the given one on these first
    rows is rendered identically, whatever its other rows hold. *)
Theorem only_first_row_plotted self (i_m : string) gmvs s :
  (exists new,
     ax_lines (ax (DistanceIMTTrellis._build_plot self i_m gmvs s).1)
       = ax_lines (ax s) ++ new
     /\ Forall (fun l => exists g d rest,
           g ∈ gsims self /\ label l = class_name g
           /\ od_lookup (class_name g) gmvs = Some d
           /\ d !! i_m = Some (NDArray (ydata l :: rest))) new)
  /\ (exists new,
       ax_lines (ax (DistanceSigmaIMTTrellis._build_plot self i_m gmvs s).1)
         = ax_lines (ax s) ++ new
       /\ Forall (fun l => exists g d rest,
             g ∈ gsims self /\ label l = class_name g
             /\ od_lookup (class_name g) gmvs = Some d
             /\ d !! i_m = Some (NDArray (ydata l :: rest))) new)
  /\ (forall gmvs',
       (forall g, g ∈ gsims self ->
          table_row0 gmvs' (class_name g) i_m = table_row0 gmvs (class_name g) i_m) ->
       DistanceIMTTrellis._build_plot self i_m gmvs' s
         = DistanceIMTTrellis._build_plot self i_m gmvs s
       /\ DistanceSigmaIMTTrellis._build_plot self i_m gmvs' s
          = DistanceSigmaIMTTrellis._build_plot self i_m gmvs s).
Proof.
  assert (Hline : forall m (l : Line2D),
    drawn_by l = m
    /\ getattr (dctx self) (distance_type self) = Ok (xdata l)
    /\ label l ∈ class_name <$> gsims self
    /\ table_row0 gmvs (label l) i_m = Ok (ydata l) ->
    exists g d rest,
      g ∈ gsims self /\ label l = class_name g
      /\ od_lookup (class_name g) gmvs = Some d
      /\ d !! i_m = Some (NDArray (ydata l :: rest))).
  { intros m l (_ & _ & Hin & Hrow).
    apply list_elem_of_fmap in Hin as (g & Hl & Hg).
    rewrite Hl in Hrow. apply table_row0_Ok in Hrow as (d & rest & Ht & Hd).
    by exists g, d, rest. }
  split; [|split].
  - rewrite mean_build_plot_run.
    destruct (plot_loop_added (mean_method (plot_type self))
                (DistanceIMTTrellis._set_labels self i_m) self i_m
                (mean_set_labels_lines self i_m) gmvs s)
      as (new & Hl & Hok & _).
    exists new. split; [exact Hl|]. eapply Forall_impl; [exact Hok|]. apply Hline.
  - rewrite sigma_build_plot_run.
    destruct (plot_loop_added (sigma_method (plot_type self))
                (DistanceSigmaIMTTrellis._set_labels self i_m) self i_m
                (sigma_set_labels_lines self i_m) gmvs s)
      as (new & Hl & Hok & _).
    exists new. split; [exact Hl|]. eapply Forall_impl; [exact Hok|]. apply Hline.
  - intros gmvs' Hrow. rewrite !mean_build_plot_run, !sigma_build_plot_run.
    split; by apply plot_loop_row0.
Qed.

End RendererProperties.

(** Rendering an intensity measure for which some GMPE's entry is the
    empty list never returns, in either class. *)
Lemma empty_entry_never_returns {SitesContext RuptureContext IMT : Type}
    (self : Trellis SitesContext RuptureContext IMT) (i_m : string)
    (gmvs : Table) (s : PlotState) (g : GMPE SitesContext RuptureContext IMT) :
  g ∈ gsims self ->
  table_getitem gmvs (class_name g) i_m = Ok EmptyList ->
  (DistanceIMTTrellis._build_plot self i_m gmvs s).2 <> Ok tt
  /\ (DistanceSigmaIMTTrellis._build_plot self i_m gmvs s).2 <> Ok tt.
Proof.
  intros Hg He. rewrite mean_build_plot_run, sigma_build_plot_run.
  split; by eapply plot_loop_empty_entry.
Qed.

(** C2 on the code.  GmpeA has no PGV: the collector stores the empty list
    for that pair and returns, and both renderers, given the returned table
    and asked for PGV, raise a type error when they index the empty list
    with [[0, :]]; no line is drawn, and the error is raised. *)
Theorem empty_entry_raises_TypeError :
  (DistanceSigmaIMTTrellis.get_ground_motion_values ex_from_string
     (ex_trellis [ex_gmpe_a] ex_dctx "rjb" "loglog") ex_collector_state).2
    = Ok ex_table
  /\ table_getitem ex_table "GmpeA" "PGV" = Ok EmptyList
  /\ DistanceIMTTrellis._build_plot
       (ex_trellis [ex_gmpe_a] ex_dctx "rjb" "loglog") "PGV" ex_table ex_plot_state
     = (mkPlotState ["GmpeA"] [] new_axes, Raise TypeError)
  /\ DistanceSigmaIMTTrellis._build_plot
       (ex_trellis [ex_gmpe_a] ex_dctx "rjb" "loglog") "PGV" ex_table ex_plot_state
     = (mkPlotState ["GmpeA"] [] new_axes, Raise TypeError).
Proof. repeat split; vm_compute; reflexivity. Qed.

(** * Properties of the standard-deviation value collector *)

Section CollectorProperties.

Context {SitesContext RuptureContext IMT : Type}.
Variable from_string : string -> result IMT.
#[local] Abbreviation Trellis := (Trellis SitesContext RuptureContext IMT).
#[local] Abbreviation GMPE := (GMPE SitesContext RuptureContext IMT).
Implicit Types (self : Trellis) (g : GMPE) (s : CollectorState).

(** The collector is its three nested loops: [collect_gmpe] per GMPE,
    [collect_pair] per intensity measure, [row_body] per rupture context. *)
Lemma get_ground_motion_values_loops self :
  DistanceSigmaIMTTrellis.get_ground_motion_values from_string self
  = (modify (with_gmvs (fun _ => [])) ;;;
     for_each (gsims self) (collect_gmpe from_string self) ;;;
     gets gmvs_of).
Proof. reflexivity. Qed.



(** C6, as amended.  The table is keyed by class name, and a later GMPE of
    the same class name replaces the entries of an earlier one.  For a
    supported pair, one with no row on which the library signals a key
    error, whose GMPE is the last of the list with its class name, the
    entry of the returned table is a 2-D array with one row per rupture
    context and one column per site, and row [k] holds the
    standard-deviation array obtained for rupture context [k] (repeated
    over the sites when it has a single element).  The collector does
    return a table when every row of every pair is stored or
    unsupported. *)
Theorem supported_pair_entry self g (i_m : string) :
  last_of_its_class g (gsims self) ->
  i_m ∈ imts self ->
  (forall rct, rct ∈ rctx self -> ~ row_unsupported from_string self g i_m rct) ->
  ((forall g' i', g' ∈ gsims self -> i' ∈ imts self ->
      pair_benign from_string self g' i') ->
   forall s, exists t,
     (DistanceSigmaIMTTrellis.get_ground_motion_values from_string self s).2
     = Ok t)
  /\ (forall s t,
       (DistanceSigmaIMTTrellis.get_ground_motion_values from_string self s).2
         = Ok t ->
       exists rows,
         table_getitem t (class_name g) i_m = Ok (NDArray rows)
         /\ length rows = length (rctx self)
         /\ Forall (fun row => length row = nsites self) rows
         /\ forall k rct, rctx self !! k = Some rct ->
              exists sigma0 row,
                evaluate_row from_string self g i_m rct = Ok sigma0
                /\ rows !! k = Some row
                /\ broadcast_to sigma0 (nsites self) = Ok row
                /\ (length sigma0 = nsites self -> row = sigma0)).
Proof.
  intros Hlast Hi Hsup. split.
  - intros Hall s. rewrite collector_run. apply gsims_outcome_returns.
    intros g' i' Hg' Hi'. by apply pair_outcome_benign, Hall.
  - intros s t Hrun.
    destruct (collector_entry _ _ _ _ _ _ Hrun Hlast Hi) as (e & He & Hte).
    destruct (pair_outcome_supported _ _ _ _ _ He Hsup)
      as (rows & -> & Hlen & Hw & Hrows).
    exists rows. repeat split; try done.
    intros k rct Hk. destruct (Hrows k rct Hk) as (v & r & Hv & Hb & Hr).
    exists v, r. repeat split; try done.
    intros Hlv. rewrite <- Hlv, broadcast_to_same in Hb. congruence.
Qed.

End CollectorProperties.

(** * Further properties of the renderers *)

Section PlotListLemmas.

Variables (m : draw_method) (sl : M PlotState unit).
Variables (dv : list float) (gmvs : Table) (i_m : string).

(** The label method touches the two labels of the axes only. *)
Hypothesis sl_frame : forall s,
  labels (sl s).1 = labels s /\ lines (sl s).1 = lines s
  /\ ax_lines (ax (sl s).1) = ax_lines (ax s)
  /\ ax_grid (ax (sl s).1) = ax_grid (ax s).

Lemma plot_step_lists (n : string) (t : PlotState) :
  exists drawn handles,
    labels (plot_step m sl dv gmvs i_m n t).1 = labels t ++ [n]
    /\ lines (plot_step m sl dv gmvs i_m n t).1 = lines t ++ handles
    /\ ax_lines (ax (plot_step m sl dv gmvs i_m n t).1) = ax_lines (ax t) ++ drawn
    /\ handles `prefix_of` drawn
    /\ label <$> drawn `prefix_of` [n]
    /\ Forall (drawn_for dv) drawn
    /\ ((plot_step m sl dv gmvs i_m n t).2 = Ok tt ->
        handles = drawn /\ label <$> drawn = [n]
        /\ ax_grid (ax (plot_step m sl dv gmvs i_m n t).1) = true).
Proof using sl_frame.
  rewrite plot_step_run.
  destruct (table_row0 gmvs n i_m) as [y|e].
  2:{ exists [], []. simpl. rewrite !app_nil_r.
      repeat split; try done; apply prefix_nil. }
  destruct (Nat.eqb (length dv) (length y)).
  2:{ exists [], []. simpl. rewrite !app_nil_r.
      repeat split; try done; apply prefix_nil. }
  destruct (getitem_first dv) as [lo|e1], (getitem_last dv) as [hi|e2].
  2,3,4: exists [mkLine m dv y "-" 2 n], []; simpl; rewrite !app_nil_r;
         repeat split; try done; try apply prefix_nil;
         by repeat constructor.
  destruct (sl_frame (after_draw (mkLine m dv y "-" 2 n) lo hi t))
    as (Hl & Hh & Ha & Hg).
  exists [mkLine m dv y "-" 2 n], [mkLine m dv y "-" 2 n].
  rewrite Hl, Hh, Ha, Hg. simpl. repeat split; try done.
  by repeat constructor.
Qed.

Lemma plot_steps_lists (names : list string) :
  forall t,
  exists drawn handles labs,
    labels (for_each names (plot_step m sl dv gmvs i_m) t).1 = labels t ++ labs
    /\ lines (for_each names (plot_step m sl dv gmvs i_m) t).1 = lines t ++ handles
    /\ ax_lines (ax (for_each names (plot_step m sl dv gmvs i_m) t).1)
       = ax_lines (ax t) ++ drawn
    /\ labs `prefix_of` names
    /\ handles `prefix_of` drawn
    /\ label <$> drawn `prefix_of` labs
    /\ length labs <= length handles + 1
    /\ Forall (drawn_for dv) drawn
    /\ ((for_each names (plot_step m sl dv gmvs i_m) t).2 = Ok tt ->
        labs = names /\ handles = drawn /\ label <$> drawn = names
        /\ (names <> [] ->
            ax_grid (ax (for_each names (plot_step m sl dv gmvs i_m) t).1) = true)).
Proof using sl_frame.
  induction names as [|n names IH]; intros t.
  - exists [], [], []. simpl. rewrite !app_nil_r.
    repeat split; try done; try apply prefix_nil; simpl; lia.
  - destruct (plot_step_lists n t)
      as (drawn1 & handles1 & Hl1 & Hh1 & Ha1 & Hp1 & Hlab1 & Hd1 & Hok1).
    simpl. unfold bind.
    destruct (plot_step m sl dv gmvs i_m n t) as [t1 [[]|e]] eqn:Hstep;
      simpl in *.
    + destruct (Hok1 eq_refl) as (-> & Hlabs1 & Hg1).
      destruct (IH t1)
        as (drawn2 & handles2 & labs2 & Hl2 & Hh2 & Ha2 & Hp2 & Hq2 & Hr2
            & Hlen2 & Hd2 & Hok2).
      exists (drawn1 ++ drawn2), (drawn1 ++ handles2), (n :: labs2).
      rewrite Hl2, Hh2, Ha2, Hl1, Hh1, Ha1, <- !app_assoc. simpl.
      assert (Hlen1 : length drawn1 = 1).
      { by rewrite <- (length_fmap label), Hlabs1. }
      split_and!.
      * reflexivity.
      * reflexivity.
      * reflexivity.
      * by apply prefix_cons.
      * by apply prefix_app.
      * rewrite fmap_app, Hlabs1. simpl. by apply prefix_cons.
      * rewrite length_app, Hlen1. simpl. lia.
      * by apply Forall_app.
      * intros Hr. destruct (Hok2 Hr) as (-> & -> & Hlabs2 & Hg2). split_and!.
        -- reflexivity.
        -- reflexivity.
        -- by rewrite fmap_app, Hlabs1, Hlabs2.
        -- intros _. destruct names as [|n' names']; [|by apply Hg2].
           exact Hg1.
    + exists drawn1, handles1, [n]. split_and!; try done.
      * apply prefix_cons, prefix_nil.
      * simpl. lia.
Qed.

End PlotListLemmas.

Section RendererExtras.

Context {SitesContext RuptureContext IMT : Type}.
#[local] Abbreviation Trellis := (Trellis SitesContext RuptureContext IMT).
#[local] Abbreviation GMPE := (GMPE SitesContext RuptureContext IMT).
Implicit Types (self : Trellis) (s : PlotState) (gmvs : Table).

Lemma mean_set_labels_frame self (i_m : string) s :
  labels (DistanceIMTTrellis._set_labels self i_m s).1 = labels s
  /\ lines (DistanceIMTTrellis._set_labels self i_m s).1 = lines s
  /\ ax_lines (ax (DistanceIMTTrellis._set_labels self i_m s).1) = ax_lines (ax s)
  /\ ax_grid (ax (DistanceIMTTrellis._set_labels self i_m s).1) = ax_grid (ax s).
Proof.
  rewrite mean_set_labels_run.
  destruct (DISTANCE_LABEL_MAP !! distance_type self); [|done].
  cbv zeta. by destruct (PLOT_UNITS !! _).
Qed.

Lemma sigma_set_labels_frame self (i_m : string) s :
  labels (DistanceSigmaIMTTrellis._set_labels self i_m s).1 = labels s
  /\ lines (DistanceSigmaIMTTrellis._set_labels self i_m s).1 = lines s
  /\ ax_lines (ax (DistanceSigmaIMTTrellis._set_labels self i_m s).1)
     = ax_lines (ax s)
  /\ ax_grid (ax (DistanceSigmaIMTTrellis._set_labels self i_m s).1)
     = ax_grid (ax s).
Proof.
  rewrite sigma_set_labels_run.
  by destruct (DISTANCE_LABEL_MAP !! distance_type self).
Qed.

(** The lists and the axes after a plotting loop, whatever its outcome. *)
Lemma plot_loop_lists (m : draw_method) (sl : M PlotState unit) self
    (i_m : string) gmvs s :
  (forall t,
     labels (sl t).1 = labels t /\ lines (sl t).1 = lines t
     /\ ax_lines (ax (sl t).1) = ax_lines (ax t)
     /\ ax_grid (ax (sl t).1) = ax_grid (ax t)) ->
  exists new,
    ax_lines (ax (plot_loop m sl self i_m gmvs s).1) = ax_lines (ax s) ++ new
    /\ labels (plot_loop m sl self i_m gmvs s).1
       `prefix_of` class_name <$> gsims self
    /\ lines (plot_loop m sl self i_m gmvs s).1 `prefix_of` new
    /\ label <$> new `prefix_of` labels (plot_loop m sl self i_m gmvs s).1
    /\ length (labels (plot_loop m sl self i_m gmvs s).1)
       <= length (lines (plot_loop m sl self i_m gmvs s).1) + 1
    /\ Forall (fun l => getattr (dctx self) (distance_type self) = Ok (xdata l)
                        /\ fmt l = "-" /\ linewidth l = 2%Q) new
    /\ ((plot_loop m sl self i_m gmvs s).2 = Ok tt ->
        labels (plot_loop m sl self i_m gmvs s).1 = class_name <$> gsims self
        /\ lines (plot_loop m sl self i_m gmvs s).1 = new
        /\ label <$> new = class_name <$> gsims self
        /\ (gsims self <> [] ->
            ax_grid (ax (plot_loop m sl self i_m gmvs s).1) = true)).
Proof.
  intros Hsl. unfold plot_loop.
  destruct (getattr (dctx self) (distance_type self)) as [dv|e] eqn:Hdv.
  2:{ exists []. simpl. rewrite app_nil_r.
      split_and!; try done; try apply prefix_nil. simpl. lia. }
  destruct (String.eqb (plot_type self) "loglog"
            || String.eqb (plot_type self) "semilogy").
  2:{ exists []. simpl. rewrite app_nil_r.
      split_and!; try done; try apply prefix_nil. simpl. lia. }
  destruct (plot_steps_lists m sl dv gmvs i_m Hsl (class_name <$> gsims self)
              (reset_lists s))
    as (drawn & handles & labs & Hl & Hh & Ha & Hp & Hq & Hr & Hlen & Hd & Hok).
  simpl in Hl, Hh, Ha. exists drawn. rewrite Hl, Hh, Ha.
  split_and!; try done.
  - eapply Forall_impl; [exact Hd|]. intros l (-> & Hf & Hw). done.
  - intros Hret. destruct (Hok Hret) as (-> & -> & Hlabs & Hg).
    split_and!; try done. intros Hne. apply Hg. by destruct (gsims self).
Qed.

(** X1.  When a rendering call returns, [self.labels] holds the class names
    of the GMPEs in order, [self.lines] holds exactly the lines the call
    added to the axes, one per GMPE and in the same order, each labelled
    with its GMPE's class name, drawn solid with width 2 over the distance
    values; and the grid is on when there is at least one GMPE.  What the
    two lists held before the call is discarded. *)
Theorem lists_after_return self (i_m : string) gmvs s s' :
  DistanceIMTTrellis._build_plot self i_m gmvs s = (s', Ok tt)
  \/ DistanceSigmaIMTTrellis._build_plot self i_m gmvs s = (s', Ok tt) ->
  labels s' = class_name <$> gsims self
  /\ ax_lines (ax s') = ax_lines (ax s) ++ lines s'
  /\ label <$> lines s' = class_name <$> gsims self
  /\ Forall (fun l => getattr (dctx self) (distance_type self) = Ok (xdata l)
                      /\ fmt l = "-" /\ linewidth l = 2%Q) (lines s')
  /\ (gsims self <> [] -> ax_grid (ax s') = true).
Proof.
  intros [Hrun|Hrun].
  - rewrite mean_build_plot_run in Hrun.
    destruct (plot_loop_lists (mean_method (plot_type self))
                (DistanceIMTTrellis._set_labels self i_m) self i_m gmvs s
                (mean_set_labels_frame self i_m))
      as (new & Ha & _ & _ & _ & _ & Hd & Hok).
    rewrite Hrun in Ha, Hok. simpl in Ha, Hok.
    destruct (Hok eq_refl) as (Hl & -> & Hlab & Hg). done.
  - rewrite sigma_build_plot_run in Hrun.
    destruct (plot_loop_lists (sigma_method (plot_type self))
                (DistanceSigmaIMTTrellis._set_labels self i_m) self i_m gmvs s
                (sigma_set_labels_frame self i_m))
      as (new & Ha & _ & _ & _ & _ & Hd & Hok).
    rewrite Hrun in Ha, Hok. simpl in Ha, Hok.
    destruct (Hok eq_refl) as (Hl & -> & Hlab & Hg). done.
Qed.

(** X2.  Whatever the outcome of a rendering call, the labels it leaves in
    [self.labels] are the class names of a first part of the GMPE list, the
    handles it leaves in [self.lines] are a first part of the lines it added
    to the axes, and there is at most one label more than handles: the name
    is appended before the line is drawn, and the handle after the x-limits
    are read. *)
Theorem lists_after_any_outcome self (i_m : string) gmvs s :
  (exists new,
     ax_lines (ax (DistanceIMTTrellis._build_plot self i_m gmvs s).1)
       = ax_lines (ax s) ++ new
     /\ labels (DistanceIMTTrellis._build_plot self i_m gmvs s).1
        `prefix_of` class_name <$> gsims self
     /\ lines (DistanceIMTTrellis._build_plot self i_m gmvs s).1 `prefix_of` new
     /\ label <$> new
        `prefix_of` labels (DistanceIMTTrellis._build_plot self i_m gmvs s).1
     /\ length (labels (DistanceIMTTrellis._build_plot self i_m gmvs s).1)
        <= length (lines (DistanceIMTTrellis._build_plot self i_m gmvs s).1) + 1)
  /\ (exists new,
       ax_lines (ax (DistanceSigmaIMTTrellis._build_plot self i_m gmvs s).1)
         = ax_lines (ax s) ++ new
       /\ labels (DistanceSigmaIMTTrellis._build_plot self i_m gmvs s).1
          `prefix_of` class_name <$> gsims self
       /\ lines (DistanceSigmaIMTTrellis._build_plot self i_m gmvs s).1
          `prefix_of` new
       /\ label <$> new
          `prefix_of` labels (DistanceSigmaIMTTrellis._build_plot self i_m gmvs s).1
       /\ length (labels (DistanceSigmaIMTTrellis._build_plot self i_m gmvs s).1)
          <= length (lines (DistanceSigmaIMTTrellis._build_plot self i_m gmvs s).1)
             + 1).
Proof.
  split.
  - rewrite mean_build_plot_run.
    destruct (plot_loop_lists (mean_method (plot_type self))
                (DistanceIMTTrellis._set_labels self i_m) self i_m gmvs s
                (mean_set_labels_frame self i_m))
      as (new & Ha & Hp & Hq & Hr & Hlen & _).
    by exists new.
  - rewrite sigma_build_plot_run.
    destruct (plot_loop_lists (sigma_method (plot_type self))
                (DistanceSigmaIMTTrellis._set_labels self i_m) self i_m gmvs s
                (sigma_set_labels_frame self i_m))
      as (new & Ha & Hp & Hq & Hr & Hlen & _).
    by exists new.
Qed.


(** The first iteration of a plotting loop whose table row cannot be read. *)
Lemma plot_loop_first_row_raise (m : draw_method) (sl : M PlotState unit) self
    (i_m : string) gmvs s (g : GMPE) (gs : list GMPE) (dv : list float)
    (e : exn) :
  getattr (dctx self) (distance_type self) = Ok dv ->
  plot_type self = "loglog" \/ plot_type self = "semilogy" ->
  gsims self = g :: gs ->
  table_row0 gmvs (class_name g) i_m = Raise e ->
  plot_loop m sl self i_m gmvs s
  = (with_labels [class_name g] (reset_lists s), Raise e).
Proof.
  intros Hdv Hpt Hgs Hrow. unfold plot_loop. rewrite Hdv, Hgs.
  assert (String.eqb (plot_type self) "loglog"
          || String.eqb (plot_type self) "semilogy" = true) as ->.
  { destruct Hpt as [->| ->]; reflexivity. }
  simpl. unfold bind. by rewrite plot_step_run, Hrow.
Qed.

Lemma plot_units_keys (k : string) :
  is_Some (PLOT_UNITS !! k) <-> k ∈ unit_keys.
Proof.
  unfold unit_keys. rewrite !elem_of_cons, elem_of_nil. split.
  - intros [u Hu].
    destruct (decide (k = "PGA")) as [->|?]; [tauto|].
    destruct (decide (k = "PGV")) as [->|?]; [tauto|].
    destruct (decide (k = "SA")) as [->|?]; [tauto|].
    destruct (decide (k = "IA")) as [->|?]; [tauto|].
    destruct (decide (k = "CSV")) as [->|?]; [tauto|].
    destruct (decide (k = "RSD")) as [->|?]; [tauto|].
    destruct (decide (k = "MMI")) as [->|?]; [tauto|].
    unfold PLOT_UNITS in Hu.
    rewrite !lookup_insert_ne, lookup_empty in Hu by done. discriminate.
  - intros [->|[->|[->|[->|[->|[->|[->|[]]]]]]]]; eexists; reflexivity.
Qed.

Lemma distance_label_keys (d : string) :
  is_Some (DISTANCE_LABEL_MAP !! d) <-> recognized_distance d.
Proof.
  split.
  - intros [name H]. by eapply distance_label_recognized.
  - intros [->|[->|[->|[->| ->]]]]; eexists; reflexivity.
Qed.

(** X3.  Without a GMPE a rendering call leaves the axes as they are: no
    line, no grid, no limits and no labels.  It empties the two lists, and
    it returns exactly when the distance context has the configured
    attribute and the plot-scale string is valid; both classes behave
    alike. *)
Theorem no_gmpe_leaves_axes self (i_m : string) gmvs s :
  gsims self = [] ->
  exists r,
    DistanceIMTTrellis._build_plot self i_m gmvs s
      = (mkPlotState [] [] (ax s), r)
    /\ DistanceSigmaIMTTrellis._build_plot self i_m gmvs s
      = (mkPlotState [] [] (ax s), r)
    /\ (r = Ok tt <->
        is_Some (dctx self !! distance_type self)
        /\ (plot_type self = "loglog" \/ plot_type self = "semilogy")).
Proof.
  intros Hgs. rewrite mean_build_plot_run, sigma_build_plot_run.
  unfold plot_loop, getattr. rewrite Hgs.
  destruct (dctx self !! distance_type self) as [dv|].
  2:{ eexists. split_and!; try reflexivity.
      split; [discriminate|]. intros [[? ?] _]. discriminate. }
  destruct (String.eqb (plot_type self) "loglog") eqn:E1.
  { apply String.eqb_eq in E1. eexists. split_and!; try reflexivity.
    split; [|done]. intros _. split; [by eexists|by left]. }
  destruct (String.eqb (plot_type self) "semilogy") eqn:E2.
  { apply String.eqb_eq in E2. eexists. split_and!; try reflexivity.
    split; [|done]. intros _. split; [by eexists|by right]. }
  apply String.eqb_neq in E1, E2.
  eexists. split_and!; try reflexivity.
  split; [discriminate|]. intros [_ [?|?]]; done.
Qed.

(** X4.  When label assignment succeeds.  The standard-deviation method
    returns exactly for the five recognized distance types.  The mean
    method returns exactly when, in addition, "SA(" occurs in the intensity
    measure string or the string is one of the seven keys of the unit
    table. *)
Theorem set_labels_returns self (i_m : string) s :
  ((DistanceSigmaIMTTrellis._set_labels self i_m s).2 = Ok tt <->
   recognized_distance (distance_type self))
  /\ ((DistanceIMTTrellis._set_labels self i_m s).2 = Ok tt <->
      recognized_distance (distance_type self)
      /\ (substring_of "SA(" i_m \/ i_m ∈ unit_keys)).
Proof.
  rewrite sigma_set_labels_run, mean_set_labels_run.
  rewrite <- distance_label_keys, <- str_contains_spec, <- plot_units_keys.
  destruct (DISTANCE_LABEL_MAP !! distance_type self) as [dname|].
  2:{ split; (split; [discriminate|]); [intros [? ?]|intros [[? ?] _]];
        discriminate. }
  split; [by split; [eexists|]|]. cbv zeta.
  destruct (str_contains "SA(" i_m) eqn:E.
  - split; [intros _|reflexivity]. split; [by eexists|by left].
  - destruct (PLOT_UNITS !! i_m) as [u|] eqn:Hu.
    + split; [intros _|reflexivity]. split; [by eexists|]. right. by eexists.
    + split; [discriminate|]. intros [_ [?|[? ?]]]; discriminate.
Qed.


(** X6.  A table without the entry.  When the table has no dictionary for
    the first GMPE's class name, or that dictionary has no entry for the
    intensity measure, both renderers fail with a key error on the missing
    key, the class name appended to [self.labels] and the axes untouched.
    Wherever in the GMPE list the entry is missing, no call returns. *)
Theorem missing_table_entry self (i_m : string) gmvs s (g : GMPE) :
  g ∈ gsims self ->
  table_getitem gmvs (class_name g) i_m = Raise (KeyError (class_name g))
  \/ table_getitem gmvs (class_name g) i_m = Raise (KeyError i_m) ->
  ((DistanceIMTTrellis._build_plot self i_m gmvs s).2 <> Ok tt
   /\ (DistanceSigmaIMTTrellis._build_plot self i_m gmvs s).2 <> Ok tt)
  /\ (forall gs dv,
       getattr (dctx self) (distance_type self) = Ok dv ->
       plot_type self = "loglog" \/ plot_type self = "semilogy" ->
       gsims self = g :: gs ->
       DistanceIMTTrellis._build_plot self i_m gmvs s
         = (mkPlotState [class_name g] [] (ax s),
            match od_lookup (class_name g) gmvs with
            | None => Raise (KeyError (class_name g))
            | Some _ => Raise (KeyError i_m)
            end)
       /\ DistanceSigmaIMTTrellis._build_plot self i_m gmvs s
         = (mkPlotState [class_name g] [] (ax s),
            match od_lookup (class_name g) gmvs with
            | None => Raise (KeyError (class_name g))
            | Some _ => Raise (KeyError i_m)
            end)).
Proof.
  intros Hg Hmiss.
  assert (Hrow : table_row0 gmvs (class_name g) i_m
                 = match od_lookup (class_name g) gmvs with
                   | None => Raise (KeyError (class_name g))
                   | Some _ => Raise (KeyError i_m)
                   end).
  { unfold table_row0. unfold table_getitem, od_getitem, dict_getitem in *.
    destruct (od_lookup (class_name g) gmvs) as [d|]; [|done].
    destruct (d !! i_m) as [e|]; [|done].
    destruct Hmiss; discriminate. }
  rewrite mean_build_plot_run, sigma_build_plot_run. split.
  - unfold plot_loop.
    destruct (getattr (dctx self) (distance_type self)) as [dv|e]; [|done].
    destruct (String.eqb (plot_type self) "loglog"
              || String.eqb (plot_type self) "semilogy"); [|done].
    assert (Hn : class_name g ∈ class_name <$> gsims self).
    { apply list_elem_of_fmap. by exists g. }
    split; apply (for_each_never_returns _ _ (class_name g) Hn);
      intros t; rewrite plot_step_run, Hrow;
      by destruct (od_lookup (class_name g) gmvs).
  - intros gs dv Hdv Hpt Hgs.
    assert (exists e, table_row0 gmvs (class_name g) i_m = Raise e
                      /\ match od_lookup (class_name g) gmvs with
                         | None => Raise (KeyError (class_name g))
                         | Some _ => Raise (KeyError i_m)
                         end = @Raise unit e) as (e & He & ->).
    { rewrite Hrow. destruct (od_lookup (class_name g) gmvs); by eexists. }
    by rewrite !(plot_loop_first_row_raise _ _ self i_m gmvs s g gs dv e
                   Hdv Hpt Hgs He).
Qed.

(** ** The plot-scale string and the plotted data *)

Ltac forget_eq H :=
  unfold forget_methods, after_draw, labelled, xlabelled, with_ax, with_labels in *;
  simpl in *; injection H as ? ? ? ? ? ? ?;
  rewrite ?fmap_app; simpl;
  repeat match goal with
  | |- context [forget_method (mkLine ?m ?x ?y ?f ?w ?n)] =>
      change (forget_method (mkLine m x y f w n)) with (mkLine plot x y f w n)
  end;
  congruence.

Lemma mean_set_labels_forget self (i_m : string) (t1 t2 : PlotState) :
  forget_methods t1 = forget_methods t2 ->
  (DistanceIMTTrellis._set_labels self i_m t1).2
  = (DistanceIMTTrellis._set_labels self i_m t2).2
  /\ forget_methods (DistanceIMTTrellis._set_labels self i_m t1).1
     = forget_methods (DistanceIMTTrellis._set_labels self i_m t2).1.
Proof.
  intros H. rewrite !mean_set_labels_run.
  destruct (DISTANCE_LABEL_MAP !! distance_type self); [|done].
  cbv zeta. destruct (PLOT_UNITS !! _); (split; [reflexivity|forget_eq H]).
Qed.

Lemma sigma_set_labels_forget self (i_m : string) (t1 t2 : PlotState) :
  forget_methods t1 = forget_methods t2 ->
  (DistanceSigmaIMTTrellis._set_labels self i_m t1).2
  = (DistanceSigmaIMTTrellis._set_labels self i_m t2).2
  /\ forget_methods (DistanceSigmaIMTTrellis._set_labels self i_m t1).1
     = forget_methods (DistanceSigmaIMTTrellis._set_labels self i_m t2).1.
Proof.
  intros H. rewrite !sigma_set_labels_run.
  destruct (DISTANCE_LABEL_MAP !! distance_type self); [|done].
  split; [reflexivity|forget_eq H].
Qed.

Lemma plot_steps_forget (m1 m2 : draw_method) (sl : M PlotState unit)
    (dv : list float) gmvs (i_m : string) (names : list string) :
  (forall t1 t2, forget_methods t1 = forget_methods t2 ->
     (sl t1).2 = (sl t2).2
     /\ forget_methods (sl t1).1 = forget_methods (sl t2).1) ->
  forall t1 t2, forget_methods t1 = forget_methods t2 ->
    (for_each names (plot_step m1 sl dv gmvs i_m) t1).2
    = (for_each names (plot_step m2 sl dv gmvs i_m) t2).2
    /\ forget_methods (for_each names (plot_step m1 sl dv gmvs i_m) t1).1
       = forget_methods (for_each names (plot_step m2 sl dv gmvs i_m) t2).1.
Proof.
  intros Hsl. induction names as [|n names IH]; intros t1 t2 H; [done|].
  simpl. unfold bind.
  assert (Hstep :
    (plot_step m1 sl dv gmvs i_m n t1).2 = (plot_step m2 sl dv gmvs i_m n t2).2
    /\ forget_methods (plot_step m1 sl dv gmvs i_m n t1).1
       = forget_methods (plot_step m2 sl dv gmvs i_m n t2).1).
  { rewrite !plot_step_run.
    destruct (table_row0 gmvs n i_m) as [y|e]; [|split; [done|forget_eq H]].
    destruct (Nat.eqb (length dv) (length y)); [|split; [done|forget_eq H]].
    destruct (getitem_first dv) as [lo|], (getitem_last dv) as [hi|];
      try (split; [done|forget_eq H]).
    apply Hsl. forget_eq H. }
  destruct (plot_step m1 sl dv gmvs i_m n t1) as [u1 [[]|e1]],
           (plot_step m2 sl dv gmvs i_m n t2) as [u2 [[]|e2]];
    simpl in Hstep; destruct Hstep as [Hr Hf]; try discriminate.
  - by apply IH.
  - done.
Qed.

(** X7.  The plot-scale string selects the draw call and nothing else.  With
    either of the two valid strings a rendering call has the same outcome
    and makes the same requests of the axes: the same grid, x-limit and
    axis-label arguments, and lines with the same data, format, width and
    label.  The recorded states differ in the draw method of the lines
    only; what the axes display for an x-limit request depends on the scale
    the draw method selects and is the charting library's matter. *)
Theorem plot_scale_keeps_data self (pt1 pt2 i_m : string) gmvs s :
  pt1 = "loglog" \/ pt1 = "semilogy" ->
  pt2 = "loglog" \/ pt2 = "semilogy" ->
  ((DistanceIMTTrellis._build_plot (with_plot_type self pt1) i_m gmvs s).2
   = (DistanceIMTTrellis._build_plot (with_plot_type self pt2) i_m gmvs s).2
   /\ forget_methods
        (DistanceIMTTrellis._build_plot (with_plot_type self pt1) i_m gmvs s).1
      = forget_methods
          (DistanceIMTTrellis._build_plot (with_plot_type self pt2) i_m gmvs s).1)
  /\ ((DistanceSigmaIMTTrellis._build_plot (with_plot_type self pt1) i_m gmvs s).2
      = (DistanceSigmaIMTTrellis._build_plot (with_plot_type self pt2) i_m gmvs s).2
      /\ forget_methods
           (DistanceSigmaIMTTrellis._build_plot
              (with_plot_type self pt1) i_m gmvs s).1
         = forget_methods
             (DistanceSigmaIMTTrellis._build_plot
                (with_plot_type self pt2) i_m gmvs s).1).
Proof.
  intros H1 H2. rewrite !mean_build_plot_run, !sigma_build_plot_run.
  unfold plot_loop. simpl.
  destruct (getattr (dctx self) (distance_type self)) as [dv|e]; [|done].
  assert (String.eqb pt1 "loglog" || String.eqb pt1 "semilogy" = true) as ->.
  { destruct H1 as [->| ->]; reflexivity. }
  assert (String.eqb pt2 "loglog" || String.eqb pt2 "semilogy" = true) as ->.
  { destruct H2 as [->| ->]; reflexivity. }
  split.
  - apply (plot_steps_forget _ _ (DistanceIMTTrellis._set_labels self i_m));
      [apply mean_set_labels_forget|reflexivity].
  - apply (plot_steps_forget _ _ (DistanceSigmaIMTTrellis._set_labels self i_m));
      [apply sigma_set_labels_forget|reflexivity].
Qed.

End RendererExtras.

(** * Further properties of the value collector *)

Section CallLemmas.

Context {St A : Type}.
Variable get_calls : St -> list (string * string * nat).

(** A loop whose iterations each append at most [b] calls, all satisfying
    [P] for the element of the iteration, appends at most [b] calls per
    element. *)
Lemma for_each_calls (P : A -> string * string * nat -> Prop) (b : nat)
    (xs : list A) (f : A -> M St unit) :
  (forall x s, exists cs,
     get_calls (f x s).1 = get_calls s ++ cs
     /\ length cs <= b /\ Forall (P x) cs) ->
  forall s, exists cs,
    get_calls (for_each xs f s).1 = get_calls s ++ cs
    /\ length cs <= length xs * b
    /\ Forall (fun c => exists x, x ∈ xs /\ P x c) cs.
Proof.
  intros Hstep. induction xs as [|x xs IH]; intros s.
  - exists []. simpl. rewrite app_nil_r. split_and!; [done|lia|constructor].
  - destruct (Hstep x s) as (cs1 & Hc1 & Hl1 & Hp1). simpl. unfold bind.
    destruct (f x s) as [s1 [[]|e]]; simpl in *.
    + destruct (IH s1) as (cs2 & Hc2 & Hl2 & Hp2).
      exists (cs1 ++ cs2). rewrite Hc2, Hc1, app_assoc, length_app.
      split_and!; [done|lia|]. apply Forall_app. split.
      * eapply Forall_impl; [exact Hp1|]. intros c Hc. exists x.
        split; [apply elem_of_cons; auto|done].
      * eapply Forall_impl; [exact Hp2|]. intros c (y & Hy & Hc). exists y.
        split; [apply elem_of_cons; auto|done].
    + exists cs1. split_and!; [done|lia|].
      eapply Forall_impl; [exact Hp1|]. intros c Hc. exists x.
      split; [apply elem_of_cons; auto|done].
Qed.

End CallLemmas.

Section CollectorExtras.

Context {SitesContext RuptureContext IMT : Type}.
Variable fs : string -> result IMT.
#[local] Abbreviation Trellis := (Trellis SitesContext RuptureContext IMT).
#[local] Abbreviation GMPE := (GMPE SitesContext RuptureContext IMT).
Implicit Types (self : Trellis) (g : GMPE) (s : CollectorState).

Lemma table_setitem_calls (name i_m : string) (e : entry) s :
  calls (table_setitem name i_m e s).1 = calls s.
Proof.
  unfold table_setitem, od_getitem, with_gmvs. unfold_monad.
  by destruct (od_lookup name (gmvs_of s)).
Qed.

(** One iteration of the row loop records the call it makes, if any,
    whatever the table holds. *)
Lemma row_body_calls self g (i_m : string) (iloc : nat) (rct : RuptureContext) s :
  calls (row_body fs self g i_m iloc rct s).1
  = calls s ++ row_calls fs g i_m iloc.
Proof.
  destruct s as [t cs].
  unfold row_body, try_except_KeyError,
    DistanceSigmaIMTTrellis.call_get_mean_and_stddevs, row_calls,
    table_setitem, table_getitem, od_getitem, dict_getitem, with_gmvs.
  unfold_monad. simpl.
  destruct (od_lookup (class_name g) t) as [d|] eqn:Ht;
    destruct (fs i_m) as [im|e]; simpl;
    try (destruct (is_KeyError e); simpl; rewrite ?Ht, ?app_nil_r; done);
    (destruct (get_mean_and_stddevs g (sctx self) rct (dctx self) im
                 [stddevs self]) as [[mean sigmas]|e]; simpl;
     [|destruct (is_KeyError e); simpl; rewrite ?Ht; done]);
    (destruct (getitem_first sigmas) as [v|e]; simpl;
     [|destruct (is_KeyError e); simpl; rewrite ?Ht; done]);
    repeat (rewrite Ht; simpl); try done.
  destruct (d !! i_m) as [arr|]; simpl; rewrite ?Ht; simpl; [|done].
  destruct (setitem_row arr iloc v) as [arr'|e]; simpl; rewrite ?Ht; simpl;
    [done|].
  destruct (is_KeyError e); simpl; rewrite ?Ht; done.
Qed.

Lemma rows_loop_calls_bound self g (i_m : string) (rcts : list RuptureContext) :
  forall iloc s,
  exists n,
    n <= length rcts
    /\ calls (for_enumerate iloc rcts (row_body fs self g i_m) s).1
       = calls s ++ pair_calls (class_name g) i_m iloc n
    /\ (0 < n -> exists im, fs i_m = Ok im).
Proof.
  induction rcts as [|rct rcts IH]; intros iloc s.
  - exists 0. simpl. rewrite app_nil_r. split_and!; [lia|done|lia].
  - pose proof (row_body_calls self g i_m iloc rct s) as Hrow.
    simpl. unfold bind.
    destruct (row_body fs self g i_m iloc rct s) as [s1 [[|]|e]]; simpl in *.
    + destruct (IH (S iloc) s1) as (n & Hn & Hc & Him).
      unfold row_calls in Hrow. destruct (fs i_m) as [im|e] eqn:Hfs.
      * exists (S n). rewrite Hc, Hrow, <- app_assoc.
        split_and!; [lia|done|by eexists].
      * exists n. rewrite Hc, Hrow, app_nil_r. split_and!; [lia| |done].
        destruct n as [|n]; [done|]. destruct Him as [im Him]; [lia|done].
    + unfold row_calls in Hrow. destruct (fs i_m) as [im|e] eqn:Hfs.
      * exists 1. rewrite Hrow. split_and!; [lia|done|by eexists].
      * exists 0. rewrite Hrow. split_and!; [lia|done|lia].
    + unfold row_calls in Hrow. destruct (fs i_m) as [im|e'] eqn:Hfs.
      * exists 1. rewrite Hrow. split_and!; [lia|done|by eexists].
      * exists 0. rewrite Hrow. split_and!; [lia|done|lia].
Qed.

Lemma collect_pair_calls self g (i_m : string) s :
  exists n,
    n <= length (rctx self)
    /\ calls (collect_pair fs self g i_m s).1
       = calls s ++ pair_calls (class_name g) i_m 0 n
    /\ (0 < n -> exists im, fs i_m = Ok im).
Proof.
  unfold collect_pair. unfold bind.
  pose proof (table_setitem_calls (class_name g) i_m
                (np_zeros (length (rctx self)) (nsites self)) s) as Hset.
  destruct (table_setitem _ _ _ s) as [s1 [[]|e]]; simpl in Hset.
  - destruct (rows_loop_calls_bound self g i_m (rctx self) 0 s1)
      as (n & Hn & Hc & Him).
    exists n. by rewrite Hc, Hset.
  - exists 0. simpl. rewrite Hset, app_nil_r. split_and!; [lia|done|lia].
Qed.

Lemma pair_calls_length (name i_m : string) (first n : nat) :
  length (pair_calls name i_m first n) = n.
Proof. unfold pair_calls. by rewrite length_fmap, length_seq. Qed.

Lemma pair_calls_Forall (name i_m : string) (n : nat) :
  Forall (fun c => c.1.1 = name /\ c.1.2 = i_m /\ c.2 < n)
    (pair_calls name i_m 0 n).
Proof.
  unfold pair_calls. apply Forall_fmap, Forall_forall. intros j Hj.
  apply elem_of_seq in Hj. simpl. split_and!; [done|done|lia].
Qed.

Lemma collector_calls self s :
  exists cs,
    calls (DistanceSigmaIMTTrellis.get_ground_motion_values fs self s).1
      = calls s ++ cs
    /\ length cs
       <= length (gsims self) * (length (imts self) * length (rctx self))
    /\ Forall (fun c =>
         c.1.1 ∈ class_name <$> gsims self
         /\ c.1.2 ∈ imts self
         /\ c.2 < length (rctx self)
         /\ exists im, fs c.1.2 = Ok im) cs.
Proof.
  assert (Hpair : forall g i_m t, exists cs,
    calls (collect_pair fs self g i_m t).1 = calls t ++ cs
    /\ length cs <= length (rctx self)
    /\ Forall (fun c => c.1.1 = class_name g /\ c.1.2 = i_m
                        /\ c.2 < length (rctx self)
                        /\ exists im, fs c.1.2 = Ok im) cs).
  { intros g i_m t. destruct (collect_pair_calls self g i_m t)
      as (n & Hn & Hc & Him).
    exists (pair_calls (class_name g) i_m 0 n).
    rewrite pair_calls_length. split_and!; [done|done|].
    destruct n as [|n]; [constructor|].
    destruct Him as [im Him]; [lia|].
    eapply Forall_impl; [apply pair_calls_Forall|].
    intros c (H1 & H2 & H3). split_and!; [done|done|lia|].
    rewrite H2. by exists im. }
  assert (Hgmpe : forall g t, exists cs,
    calls (collect_gmpe fs self g t).1 = calls t ++ cs
    /\ length cs <= length (imts self) * length (rctx self)
    /\ Forall (fun c => c.1.1 = class_name g /\ c.1.2 ∈ imts self
                        /\ c.2 < length (rctx self)
                        /\ exists im, fs c.1.2 = Ok im) cs).
  { intros g t. unfold collect_gmpe. unfold bind at 1. unfold modify at 1.
    destruct (for_each_calls calls
                (fun i_m c => c.1.1 = class_name g /\ c.1.2 = i_m
                              /\ c.2 < length (rctx self)
                              /\ exists im, fs c.1.2 = Ok im)
                (length (rctx self)) (imts self) (collect_pair fs self g)
                (Hpair g) (with_gmvs (od_set (class_name g) ∅) t))
      as (cs & Hc & Hl & Hp).
    exists cs. split_and!; [done|done|].
    eapply Forall_impl; [exact Hp|].
    intros c (i_m & Hi & H1 & H2 & H3 & H4).
    split_and!; [done|by rewrite H2|done|done]. }
  rewrite get_ground_motion_values_loops.
  unfold bind at 1 2. unfold modify at 1.
  destruct (for_each_calls calls
              (fun g c => c.1.1 = class_name g /\ c.1.2 ∈ imts self
                          /\ c.2 < length (rctx self)
                          /\ exists im, fs c.1.2 = Ok im)
              (length (imts self) * length (rctx self)) (gsims self)
              (collect_gmpe fs self) Hgmpe (with_gmvs (fun _ => []) s))
    as (cs & Hc & Hl & Hp).
  exists cs. split_and!.
  - by destruct (for_each (gsims self) (collect_gmpe fs self) _) as [s1 [[]|e]].
  - done.
  - eapply Forall_impl; [exact Hp|].
    intros c (g & Hg & H1 & H2 & H3 & H4). split_and!; try done.
    rewrite H1. apply list_elem_of_fmap. by exists g.
Qed.

(** X8.  No retries.  A collection appends to the record of evaluation
    calls at most one call per GMPE, intensity measure and rupture context,
    and every call it makes is for a GMPE of the list, an intensity measure
    of the list that the parser accepted, and a row index of the rupture
    contexts. *)
Theorem evaluation_calls_bounded self s :
  exists cs,
    calls (DistanceSigmaIMTTrellis.get_ground_motion_values fs self s).1
      = calls s ++ cs
    /\ length cs
       <= length (gsims self) * (length (imts self) * length (rctx self))
    /\ Forall (fun c =>
         c.1.1 ∈ class_name <$> gsims self
         /\ c.1.2 ∈ imts self
         /\ c.2 < length (rctx self)
         /\ exists im, fs c.1.2 = Ok im) cs.
Proof. apply collector_calls. Qed.

(** Every GMPE of a list shares its class name with the last GMPE of the
    list that carries it. *)
Lemma last_of_its_class_exists (gs : list GMPE) :
  forall g, g ∈ gs ->
  exists g', last_of_its_class g' gs /\ class_name g' = class_name g.
Proof.
  induction gs as [|a gs IH]; intros g Hg; [by apply elem_of_nil in Hg|].
  destruct (decide (class_name g ∈ class_name <$> gs)) as [Hin|Hnot].
  - apply list_elem_of_fmap in Hin as (g2 & Hname & Hg2).
    destruct (IH g2 Hg2) as (g' & (gs1 & gs2 & -> & Hlast) & Hg').
    exists g'. split; [|congruence].
    exists (a :: gs1), gs2. by split.
  - apply elem_of_cons in Hg as [->|Hg].
    + exists a. split; [|done]. exists [], gs. split; [done|].
      intros g' Hg' Heq. apply Hnot, list_elem_of_fmap. by exists g'.
    + exfalso. apply Hnot, list_elem_of_fmap. by exists g.
Qed.

(** The entry found under the class name of any GMPE of the list. *)
Lemma collector_entry_any self s t g (i_m : string) :
  (DistanceSigmaIMTTrellis.get_ground_motion_values fs self s).2 = Ok t ->
  g ∈ gsims self -> i_m ∈ imts self ->
  exists g' e,
    last_of_its_class g' (gsims self)
    /\ class_name g' = class_name g
    /\ pair_outcome fs self g' i_m = Ok e
    /\ table_getitem t (class_name g) i_m = Ok e.
Proof.
  intros Hrun Hg Hi.
  destruct (last_of_its_class_exists (gsims self) g Hg) as (g' & Hlast & Hname).
  destruct (collector_entry fs self s t g' i_m Hrun Hlast Hi) as (e & He & Hte).
  exists g', e. by rewrite <- Hname.
Qed.


(** X9.  No rupture context.  With an empty list of rupture contexts the
    collector returns without an evaluation call, whatever the parser and
    the GMPEs would answer, and every entry of the table is an array without
    rows.  The renderer cannot draw such an
    entry: asked for an intensity measure of the list, it fails in its first
    iteration with an index error, the axes untouched. *)
Theorem no_rupture_context self s :
  rctx self = [] ->
  exists t,
    (DistanceSigmaIMTTrellis.get_ground_motion_values fs self s).2 = Ok t
    /\ calls (DistanceSigmaIMTTrellis.get_ground_motion_values fs self s).1
       = calls s
    /\ (forall g i_m, g ∈ gsims self -> i_m ∈ imts self ->
         table_getitem t (class_name g) i_m = Ok (NDArray []))
    /\ (forall i_m g gs dv ps,
         i_m ∈ imts self -> gsims self = g :: gs ->
         getattr (dctx self) (distance_type self) = Ok dv ->
         plot_type self = "loglog" \/ plot_type self = "semilogy" ->
         DistanceSigmaIMTTrellis._build_plot self i_m t ps
         = (mkPlotState [class_name g] [] (ax ps), Raise IndexError)).
Proof.
  intros Hr.
  assert (Hpair : forall g i_m, pair_outcome fs self g i_m = Ok (NDArray [])).
  { intros g i_m. unfold pair_outcome. by rewrite Hr. }
  destruct (gsims_outcome_returns fs self (gsims self) []) as [t Ht].
  { intros g i_m _ _. by eexists. }
  exists t. rewrite collector_run. split; [done|].
  assert (Hrun : (DistanceSigmaIMTTrellis.get_ground_motion_values fs self s).2
                 = Ok t) by by rewrite collector_run.
  assert (Hentry : forall g i_m, g ∈ gsims self -> i_m ∈ imts self ->
            table_getitem t (class_name g) i_m = Ok (NDArray [])).
  { intros g i_m Hg Hi.
    destruct (collector_entry_any self s t g i_m Hrun Hg Hi)
      as (g' & e & _ & _ & He & Hte).
    rewrite Hpair in He. congruence. }
  split_and!.
  - destruct (collector_calls self s) as (cs & Hc & Hl & _).
    rewrite Hr in Hl. simpl in Hl.
    assert (cs = []) as -> by (apply length_zero_iff_nil; lia).
    by rewrite Hc, app_nil_r.
  - exact Hentry.
  - intros i_m g gs dv ps Hi Hgs Hdv Hpt. rewrite sigma_build_plot_run.
    apply (plot_loop_first_row_raise _ _ self i_m t ps g gs dv); try done.
    unfold table_row0. rewrite Hentry; [done| |done].
    rewrite Hgs. apply elem_of_cons. by left.
Qed.

(** X10.  An intensity measure the parser rejects.  When the parser raises
    a key error for an intensity measure string and there is at least one
    rupture context, the string is treated as unsupported by every GMPE:
    the returned table holds the empty list for it under every class name,
    and no evaluation call is made for it. *)
Theorem parser_key_error self (i_m : string) (e : exn) s :
  fs i_m = Raise e -> is_KeyError e = true ->
  rctx self <> [] ->
  (forall t g,
     (DistanceSigmaIMTTrellis.get_ground_motion_values fs self s).2 = Ok t ->
     g ∈ gsims self -> i_m ∈ imts self ->
     table_getitem t (class_name g) i_m = Ok EmptyList)
  /\ (exists cs,
       calls (DistanceSigmaIMTTrellis.get_ground_motion_values fs self s).1
         = calls s ++ cs
       /\ Forall (fun c => c.1.2 <> i_m) cs).
Proof.
  intros Hfs Hk Hne. split.
  - intros t g Hrun Hg Hi.
    destruct (collector_entry_any self s t g i_m Hrun Hg Hi)
      as (g' & e' & _ & _ & He & Hte).
    destruct (rctx self) as [|rct rcts] eqn:Hr; [done|].
    rewrite (pair_outcome_unsupported fs self g' i_m 0 rct) in He.
    + congruence.
    + by rewrite Hr.
    + intros j r Hj. lia.
    + exists e. split; [|done]. by apply evaluate_row_parse_raise.
  - destruct (collector_calls self s) as (cs & Hc & _ & Hp).
    exists cs. split; [done|]. eapply Forall_impl; [exact Hp|].
    intros c (_ & _ & _ & im & Him) Heq. rewrite Heq, Hfs in Him. discriminate.
Qed.

Lemma rows_outcome_store_raise self g (i_m : string) pre rct post v e :
  forall iloc rows,
  Forall (fun row => length row = nsites self) rows ->
  iloc + length (pre ++ rct :: post) <= length rows ->
  (forall r, r ∈ pre -> row_stored fs self g i_m r) ->
  evaluate_row fs self g i_m rct = Ok v ->
  broadcast_to v (nsites self) = Raise e ->
  rows_outcome fs self g i_m iloc (pre ++ rct :: post) rows = Raise e.
Proof.
  induction pre as [|r pre IH]; intros iloc rows Hw Hlen Hpre Hv Hb; simpl.
  - rewrite Hv. unfold array_set_row. simpl in Hlen.
    destruct (lookup_lt_is_Some_2 rows iloc ltac:(lia)) as [old Hold].
    rewrite Hold. rewrite Forall_lookup in Hw. by rewrite (Hw _ _ Hold), Hb.
  - destruct (Hpre r) as (v' & w & Hv' & Hb'); [apply elem_of_cons; auto|].
    rewrite Hv'. simpl in Hlen.
    rewrite (array_set_row_Ok rows iloc (nsites self) v' w Hw) by (done || lia).
    apply IH; try done.
    + apply insert_row_widths; [done|]. by eapply broadcast_to_length.
    + rewrite length_insert. lia.
    + intros r' Hr'. apply Hpre, elem_of_cons. auto.
Qed.

(** X11.  Failures of the store are not caught.  When the first row of a
    pair that is not stored is one for which the library returns an empty
    list of standard-deviation arrays, the collector raises an index error;
    when it returns a first array whose length is neither the number of
    sites nor one, the collector raises a value error.  Neither is a key
    error, so the pair is not emptied: the collection is aborted. *)
Theorem store_failures_propagate self (gs1 gs2 : list GMPE) g
    (is1 is2 : list string) (i_m : string) (im : IMT) (k : nat)
    (rct : RuptureContext) (mean : list float) (sigmas : list (list float)) s :
  gsims self = gs1 ++ g :: gs2 ->
  imts self = is1 ++ i_m :: is2 ->
  (forall g' i', g' ∈ gs1 -> i' ∈ imts self -> pair_benign fs self g' i') ->
  (forall i', i' ∈ is1 -> pair_benign fs self g i') ->
  rctx self !! k = Some rct ->
  rows_stored_before fs self g i_m k ->
  fs i_m = Ok im ->
  get_mean_and_stddevs g (sctx self) rct (dctx self) im [stddevs self]
    = Ok (mean, sigmas) ->
  (sigmas = [] ->
   (DistanceSigmaIMTTrellis.get_ground_motion_values fs self s).2
   = Raise IndexError)
  /\ (forall v rest,
       sigmas = v :: rest ->
       length v <> nsites self -> length v <> 1 ->
       (DistanceSigmaIMTTrellis.get_ground_motion_values fs self s).2
       = Raise ValueError).
Proof.
  intros Hgs Hims Hbefore Hbefore' Hk Hpre Hfs Hcall.
  assert (Hup : forall e, pair_outcome fs self g i_m = Raise e ->
    (DistanceSigmaIMTTrellis.get_ground_motion_values fs self s).2 = Raise e).
  { intros e He. rewrite collector_run, Hgs. apply gsims_outcome_raise.
    - intros g' i' Hg' Hi'. by apply pair_outcome_benign, Hbefore.
    - rewrite Hims. apply imts_outcome_raise; [|done].
      intros i' Hi'. by apply pair_outcome_benign, Hbefore'. }
  split.
  - intros ->. apply Hup.
    apply (pair_outcome_raise fs self g i_m k rct); try done.
    unfold evaluate_row. by rewrite Hfs, Hcall.
  - intros v rest -> Hn H1. apply Hup. unfold pair_outcome.
    rewrite <- (take_drop_middle _ _ _ Hk) at 1.
    apply (rows_outcome_store_raise self g i_m _ _ _ v).
    + apply zeros_widths.
    + rewrite (take_drop_middle _ _ _ Hk), length_replicate. lia.
    + intros r Hr. by eapply stored_before_take.
    + unfold evaluate_row. by rewrite Hfs, Hcall.
    + unfold broadcast_to. apply Nat.eqb_neq in Hn. rewrite Hn.
      destruct v as [|x [|y v]]; simpl in *; done.
Qed.

(** ** The keys of the returned table *)

Lemma od_keys_set {V} (k : string) (v : V) (d : OrderedDict V) :
  od_keys (od_set k v d)
  = if decide (k ∈ od_keys d) then od_keys d else od_keys d ++ [k].
Proof.
  unfold od_keys. induction d as [|[k' v'] d IH]; cbn [od_set].
  - rewrite fmap_cons, !fmap_nil. case_decide as H; [|done].
    by apply elem_of_nil in H.
  - destruct (String.eqb k k') eqn:E; rewrite !fmap_cons; cbn [fst].
    + apply String.eqb_eq in E as ->. clear IH.
      destruct (decide (k' ∈ k' :: d.*1)) as [_|H]; [done|].
      exfalso. apply H, elem_of_cons. by left.
    + apply String.eqb_neq in E. rewrite IH. clear IH.
      destruct (decide (k ∈ d.*1)) as [H|H];
        destruct (decide (k ∈ k' :: d.*1)) as [H'|H']; try done.
      * exfalso. apply H', elem_of_cons. by right.
      * exfalso. apply elem_of_cons in H' as [?|?]; done.
Qed.

Lemma od_lookup_keys {V} (k : string) (d : OrderedDict V) :
  is_Some (od_lookup k d) <-> k ∈ od_keys d.
Proof.
  unfold od_keys. induction d as [|[k' v'] d IH]; cbn [od_lookup].
  - rewrite fmap_nil. split; [by intros [? ?]|by intros ?%elem_of_nil].
  - rewrite fmap_cons, elem_of_cons. cbn [fst].
    destruct (String.eqb k k') eqn:E.
    + apply String.eqb_eq in E. split; [by left|by eexists].
    + apply String.eqb_neq in E. rewrite IH. split; [by right|by intros [?|?]].
Qed.

Lemma imts_outcome_dom self g (ims : list string) :
  forall d d',
  imts_outcome fs self g ims d = Ok d' ->
  dom d' = dom d ∪ list_to_set ims.
Proof.
  induction ims as [|a ims IH]; intros d d' Hout; simpl in Hout.
  - injection Hout as <-. by rewrite list_to_set_nil, union_empty_r_L.
  - destruct (pair_outcome fs self g a) as [e|]; [|discriminate].
    rewrite (IH _ _ Hout), dom_insert_L, list_to_set_cons.
    by rewrite (comm_L (∪) {[a]} (dom d)), <- (assoc_L (∪)).
Qed.

Lemma gsims_outcome_keys self (gs : list GMPE) :
  forall t t',
  gsims_outcome fs self gs t = Ok t' ->
  (NoDup (od_keys t) -> NoDup (od_keys t'))
  /\ (forall n, n ∈ od_keys t' <-> n ∈ od_keys t \/ n ∈ class_name <$> gs)
  /\ (NoDup (od_keys t ++ (class_name <$> gs)) ->
      od_keys t' = od_keys t ++ (class_name <$> gs))
  /\ ((forall n d, od_lookup n t = Some d -> dom d = list_to_set (imts self)) ->
      forall n d, od_lookup n t' = Some d -> dom d = list_to_set (imts self)).
Proof.
  induction gs as [|g gs IH]; intros t t' Hout; simpl in Hout.
  - injection Hout as <-. simpl. rewrite app_nil_r. split_and!; try done.
    intros n. rewrite elem_of_nil. tauto.
  - destruct (imts_outcome fs self g (imts self) ∅) as [d|] eqn:Hd; [|discriminate].
    destruct (IH _ _ Hout) as (Hnd & Hin & Hord & Hdom).
    assert (Hkeys : forall n, n ∈ od_keys (od_set (class_name g) d t)
                              <-> n ∈ od_keys t \/ n = class_name g).
    { intros n. rewrite od_keys_set.
      destruct (decide (class_name g ∈ od_keys t)) as [H|H].
      - split; [by left|]. by intros [?| ->].
      - rewrite elem_of_app, list_elem_of_singleton. done. }
    split_and!.
    + intros Hn. apply Hnd. rewrite od_keys_set.
      destruct (decide (class_name g ∈ od_keys t)) as [H|H]; [done|].
      apply NoDup_app. split_and!; [done| |apply NoDup_singleton].
      intros n Hn1 Hn2%list_elem_of_singleton. by subst.
    + intros n. rewrite Hin, Hkeys. simpl. rewrite elem_of_cons. tauto.
    + intros Hn. simpl in Hn. rewrite Hord.
      * rewrite od_keys_set.
        destruct (decide (class_name g ∈ od_keys t)) as [H|H].
        -- exfalso. apply NoDup_app in Hn as (_ & Hn & _).
           apply (Hn _ H), elem_of_cons. by left.
        -- simpl. by rewrite <- app_assoc.
      * rewrite od_keys_set.
        destruct (decide (class_name g ∈ od_keys t)) as [H|H].
        -- exfalso. apply NoDup_app in Hn as (_ & Hn & _).
           apply (Hn _ H), elem_of_cons. by left.
        -- by rewrite <- app_assoc.
    + intros Hall. apply Hdom. intros n d0 Hn.
      destruct (decide (class_name g = n)) as [<-|Hne].
      * rewrite od_lookup_set_eq in Hn. injection Hn as <-.
        by rewrite (imts_outcome_dom _ _ _ _ _ Hd), dom_empty_L, union_empty_l_L.
      * rewrite od_lookup_set_ne in Hn by done. by eapply Hall.
Qed.

(** X12.  The keys of the table.  The table the collector returns has one
    dictionary per class name of the GMPE list, without repetition, and in
    the order of the list when the class names are distinct; every
    dictionary has exactly the intensity measures of the list as its keys,
    whether their entries are arrays or empty lists. *)
Theorem table_keys self s t :
  (DistanceSigmaIMTTrellis.get_ground_motion_values fs self s).2 = Ok t ->
  NoDup (od_keys t)
  /\ (forall n, n ∈ od_keys t <-> n ∈ class_name <$> gsims self)
  /\ (NoDup (class_name <$> gsims self) -> od_keys t = class_name <$> gsims self)
  /\ (forall n d, od_lookup n t = Some d -> dom d = list_to_set (imts self)).
Proof.
  rewrite collector_run. intros Hout.
  destruct (gsims_outcome_keys self (gsims self) [] t Hout)
    as (Hnd & Hin & Hord & Hdom).
  split_and!.
  - apply Hnd. constructor.
  - intros n. rewrite Hin. simpl. rewrite elem_of_nil. tauto.
  - exact Hord.
  - apply Hdom. intros n d Hn. discriminate.
Qed.

(** ** One pair at a time *)

Lemma rows_outcome_with_request self g (i_m : string) (gs : list GMPE)
    (ims : list string) (rcts : list RuptureContext) :
  forall iloc rows,
  rows_outcome fs (with_request self gs ims) g i_m iloc rcts rows
  = rows_outcome fs self g i_m iloc rcts rows.
Proof.
  induction rcts as [|rct rcts IH]; intros iloc rows; [reflexivity|].
  simpl. change (evaluate_row fs (with_request self gs ims) g i_m rct)
    with (evaluate_row fs self g i_m rct).
  destruct (evaluate_row fs self g i_m rct) as [v|e]; [|reflexivity].
  destruct (array_set_row rows iloc v); [apply IH|reflexivity].
Qed.

(** X13.  One pair at a time.  The entry of a pair in the returned table is
    the entry that a collection of that GMPE and that intensity measure
    alone returns: it depends neither on the other GMPEs nor on the other
    intensity measures of the request.  Under a class name that several
    GMPEs of the list carry, it is the entry of the last of them. *)
Theorem entry_of_pair_alone self s s1 t g (i_m : string) :
  (DistanceSigmaIMTTrellis.get_ground_motion_values fs self s).2 = Ok t ->
  last_of_its_class g (gsims self) ->
  i_m ∈ imts self ->
  exists t1,
    (DistanceSigmaIMTTrellis.get_ground_motion_values fs
       (with_request self [g] [i_m]) s1).2 = Ok t1
    /\ table_getitem t (class_name g) i_m = table_getitem t1 (class_name g) i_m
    /\ exists e, table_getitem t (class_name g) i_m = Ok e.
Proof.
  intros Hrun Hlast Hi.
  destruct (collector_entry fs self s t g i_m Hrun Hlast Hi) as (e & He & Hte).
  assert (He1 : pair_outcome fs (with_request self [g] [i_m]) g i_m = Ok e).
  { unfold pair_outcome in *. by rewrite rows_outcome_with_request. }
  exists [(class_name g, <[i_m := e]> ∅)]. rewrite collector_run. simpl.
  rewrite He1. simpl. split_and!.
  - reflexivity.
  - rewrite Hte. unfold table_getitem, od_getitem, dict_getitem. simpl.
    by rewrite String.eqb_refl, lookup_insert_eq.
  - by exists e.
Qed.

End CollectorExtras.

(** * From the collector to the renderer *)

Section Pipeline.

Context {SitesContext RuptureContext IMT : Type}.
Variable fs : string -> result IMT.
#[local] Abbreviation Trellis := (Trellis SitesContext RuptureContext IMT).
#[local] Abbreviation GMPE := (GMPE SitesContext RuptureContext IMT).
Implicit Types (self : Trellis) (g : GMPE).

(** X14.  One curve per class name.  Two lines that a rendering call draws
    under the same label carry the same abscissas and the same ordinates:
    the table is read by class name, so GMPE objects that share a class
    name are drawn as the same curve, once each. *)
Theorem same_label_same_curve self (i_m : string) (gmvs : Table) (s : PlotState) :
  (exists new,
     ax_lines (ax (DistanceIMTTrellis._build_plot self i_m gmvs s).1)
       = ax_lines (ax s) ++ new
     /\ forall l1 l2, l1 ∈ new -> l2 ∈ new -> label l1 = label l2 ->
          xdata l1 = xdata l2 /\ ydata l1 = ydata l2)
  /\ (exists new,
       ax_lines (ax (DistanceSigmaIMTTrellis._build_plot self i_m gmvs s).1)
         = ax_lines (ax s) ++ new
       /\ forall l1 l2, l1 ∈ new -> l2 ∈ new -> label l1 = label l2 ->
            xdata l1 = xdata l2 /\ ydata l1 = ydata l2).
Proof.
  split.
  - rewrite mean_build_plot_run.
    destruct (plot_loop_added (mean_method (plot_type self))
                (DistanceIMTTrellis._set_labels self i_m) self i_m
                (mean_set_labels_lines self i_m) gmvs s)
      as (new & Hl & Hok & _).
    exists new. split; [exact Hl|]. rewrite Forall_forall in Hok.
    intros l1 l2 H1 H2 Heq.
    destruct (Hok l1 H1) as (_ & Hx1 & _ & Hy1).
    destruct (Hok l2 H2) as (_ & Hx2 & _ & Hy2).
    rewrite Heq in Hy1. split; congruence.
  - rewrite sigma_build_plot_run.
    destruct (plot_loop_added (sigma_method (plot_type self))
                (DistanceSigmaIMTTrellis._set_labels self i_m) self i_m
                (sigma_set_labels_lines self i_m) gmvs s)
      as (new & Hl & Hok & _).
    exists new. split; [exact Hl|]. rewrite Forall_forall in Hok.
    intros l1 l2 H1 H2 Heq.
    destruct (Hok l1 H1) as (_ & Hx1 & _ & Hy1).
    destruct (Hok l2 H2) as (_ & Hx2 & _ & Hy2).
    rewrite Heq in Hy1. split; congruence.
Qed.



End Pipeline.

(** * The properties on the example inputs *)

(** C4 as first stated fails: with a plot-scale string that is neither
    "loglog" nor "semilogy" and a distance type the distance context does
    not have, both renderers fail with an attribute error, not with an
    assertion error. *)
Lemma assertion_preempted_by_getattr :
  plot_type (ex_trellis [ex_gmpe_a] ex_dctx "foo" "linear") <> "loglog"
  /\ plot_type (ex_trellis [ex_gmpe_a] ex_dctx "foo" "linear") <> "semilogy"
  /\ DistanceIMTTrellis._build_plot
       (ex_trellis [ex_gmpe_a] ex_dctx "foo" "linear") "PGA" ex_table ex_plot_state
     = (ex_plot_state, Raise (AttributeError "foo"))
  /\ DistanceSigmaIMTTrellis._build_plot
       (ex_trellis [ex_gmpe_a] ex_dctx "foo" "linear") "PGA" ex_table ex_plot_state
     = (ex_plot_state, Raise (AttributeError "foo"))
  /\ (DistanceIMTTrellis._build_plot
        (ex_trellis [ex_gmpe_a] ex_dctx "foo" "linear") "PGA" ex_table
        ex_plot_state).2 <> Raise AssertionError.
Proof. repeat split; try discriminate; vm_compute; (reflexivity || discriminate). Qed.

(** C6 as first stated fails: GmpeA supports PGA, no row of the pair signals
    a key error and the library returns a tenth of the magnitude at every
    site; but a second object of the same class name follows in the GMPE
    list and signals a key error at magnitude 7, and the entry the
    collector returns under the name is the empty list, not a 2 x 4
    array. *)
Lemma supported_pair_overwritten :
  ex_gmpe_a ∈ gsims (ex_trellis [ex_gmpe_a; ex_gmpe_a2] ex_dctx "rjb" "loglog")
  /\ (forall rct, rct ∈ [6; 7]%Q ->
        ~ row_unsupported ex_from_string
            (ex_trellis [ex_gmpe_a; ex_gmpe_a2] ex_dctx "rjb" "loglog")
            ex_gmpe_a "PGA" rct)
  /\ evaluate_row ex_from_string
       (ex_trellis [ex_gmpe_a; ex_gmpe_a2] ex_dctx "rjb" "loglog")
       ex_gmpe_a "PGA" 6%Q = Ok [6 / 10; 6 / 10; 6 / 10; 6 / 10]%Q
  /\ evaluate_row ex_from_string
       (ex_trellis [ex_gmpe_a; ex_gmpe_a2] ex_dctx "rjb" "loglog")
       ex_gmpe_a "PGA" 7%Q = Ok [7 / 10; 7 / 10; 7 / 10; 7 / 10]%Q
  /\ exists t,
       (DistanceSigmaIMTTrellis.get_ground_motion_values ex_from_string
          (ex_trellis [ex_gmpe_a; ex_gmpe_a2] ex_dctx "rjb" "loglog")
          ex_collector_state).2 = Ok t
       /\ table_getitem t (class_name ex_gmpe_a) "PGA" = Ok EmptyList
       /\ forall rows,
            table_getitem t (class_name ex_gmpe_a) "PGA" <> Ok (NDArray rows).
Proof.
  split_and!.
  - apply elem_of_cons. by left.
  - intros rct Hrct (e & He & Hk). split_elem Hrct;
      vm_compute in He; discriminate.
  - vm_compute. reflexivity.
  - vm_compute. reflexivity.
  - eexists. split; [vm_compute; reflexivity|]. split.
    + vm_compute. reflexivity.
    + intros rows. vm_compute. discriminate.
Qed.

(** C7 as first stated fails: with the distance values in descending order
    the call returns having requested the x-limits (100, 1), the first and
    the last value, while the minimum is 1 and the maximum is 100. *)
Lemma xlim_not_min_max :
  exists s',
    DistanceIMTTrellis._build_plot
      (ex_trellis [ex_gmpe_a] ex_dctx_descending "rjb" "loglog") "PGA" ex_table
      ex_plot_state = (s', Ok tt)
    /\ getattr ex_dctx_descending "rjb" = Ok [100; 50; 10; 1]%Q
    /\ list_min [100; 50; 10; 1]%Q = Some 1%Q
    /\ list_max [100; 50; 10; 1]%Q = Some 100%Q
    /\ ax_xlim_request (ax s') = Some (100%Q, 1%Q)
    /\ ax_xlim_request (ax s') <> Some (1%Q, 100%Q).
Proof.
  eexists. split; [vm_compute; reflexivity|].
  repeat split; try (vm_compute; reflexivity). discriminate.
Qed.


(** C3 on the examples: one GMPE, each plot-scale string, each renderer;
    the four calls return with one line on the axes, drawn by the selected
    method. *)
Lemma plot_scale_selects_draw_method_witness :
  (draws_with (DistanceIMTTrellis._build_plot
                 (ex_trellis [ex_gmpe_a] ex_dctx "rjb" "semilogy") "PGA" ex_table)
     1 semilogy
   /\ draws_with (DistanceIMTTrellis._build_plot
                    (ex_trellis [ex_gmpe_a] ex_dctx "rjb" "loglog") "PGA" ex_table)
        1 loglog
   /\ draws_with (DistanceSigmaIMTTrellis._build_plot
                    (ex_trellis [ex_gmpe_a] ex_dctx "rjb" "loglog") "PGA" ex_table)
        1 semilogx
   /\ draws_with (DistanceSigmaIMTTrellis._build_plot
                    (ex_trellis [ex_gmpe_a] ex_dctx "rjb" "semilogy") "PGA" ex_table)
        1 plot)
  /\ (returns_drawing (DistanceIMTTrellis._build_plot
                         (ex_trellis [ex_gmpe_a] ex_dctx "rjb" "semilogy") "PGA"
                         ex_table) ex_plot_state 1 semilogy
      /\ returns_drawing (DistanceIMTTrellis._build_plot
                            (ex_trellis [ex_gmpe_a] ex_dctx "rjb" "loglog") "PGA"
                            ex_table) ex_plot_state 1 loglog
      /\ returns_drawing (DistanceSigmaIMTTrellis._build_plot
                            (ex_trellis [ex_gmpe_a] ex_dctx "rjb" "loglog") "PGA"
                            ex_table) ex_plot_state 1 semilogx
      /\ returns_drawing (DistanceSigmaIMTTrellis._build_plot
                            (ex_trellis [ex_gmpe_a] ex_dctx "rjb" "semilogy") "PGA"
                            ex_table) ex_plot_state 1 plot)
  /\ (drawn_by <$> ax_lines (ax (DistanceIMTTrellis._build_plot
                                   (ex_trellis [ex_gmpe_a] ex_dctx "rjb" "semilogy")
                                   "PGA" ex_table ex_plot_state).1) = [semilogy]
      /\ drawn_by <$> ax_lines (ax (DistanceIMTTrellis._build_plot
                                      (ex_trellis [ex_gmpe_a] ex_dctx "rjb" "loglog")
                                      "PGA" ex_table ex_plot_state).1) = [loglog]
      /\ drawn_by <$> ax_lines (ax (DistanceSigmaIMTTrellis._build_plot
                                      (ex_trellis [ex_gmpe_a] ex_dctx "rjb" "loglog")
                                      "PGA" ex_table ex_plot_state).1) = [semilogx]
      /\ drawn_by <$> ax_lines (ax (DistanceSigmaIMTTrellis._build_plot
                                      (ex_trellis [ex_gmpe_a] ex_dctx "rjb" "semilogy")
                                      "PGA" ex_table ex_plot_state).1) = [plot]).
Proof.
  pose proof (plot_scale_selects_draw_method
                (ex_trellis [ex_gmpe_a] ex_dctx "rjb" "semilogy") "PGA" ex_table)
    as (Hm1 & _ & _ & Hs2 & Hsemilogy).
  pose proof (plot_scale_selects_draw_method
                (ex_trellis [ex_gmpe_a] ex_dctx "rjb" "loglog") "PGA" ex_table)
    as (_ & Hm2 & Hs1 & _ & Hloglog).
  assert (Hdv : getattr ex_dctx "rjb" = Ok [1; 10; 50; 100]%Q)
    by (vm_compute; reflexivity).
  assert (Hne : [1; 10; 50; 100]%Q <> []) by discriminate.
  assert (Hrows : forall g : GMPE unit Q string, g ∈ [ex_gmpe_a] ->
            exists y, table_row0 ex_table (class_name g) "PGA" = Ok y
                      /\ length y = length [1; 10; 50; 100]%Q).
  { intros g Hg. split_elem Hg.
    exists [6 / 10; 6 / 10; 6 / 10; 6 / 10]%Q.
    split; vm_compute; reflexivity. }
  assert (Hd : DISTANCE_LABEL_MAP !! "rjb" = Some "Joyner-Boore Dist.")
    by (vm_compute; reflexivity).
  assert (Hu : PLOT_UNITS !! (if str_contains "SA(" "PGA" then "SA" else "PGA")
               = Some "g") by (vm_compute; reflexivity).
  specialize (Hsemilogy ex_plot_state [1; 10; 50; 100]%Q "Joyner-Boore Dist."
                Hdv Hne Hrows Hd).
  specialize (Hloglog ex_plot_state [1; 10; 50; 100]%Q "Joyner-Boore Dist."
                Hdv Hne Hrows Hd).
  destruct Hsemilogy as (_ & Hsigma2 & Hmean1).
  destruct Hloglog as (Hsigma1 & _ & Hmean2).
  destruct (Hmean1 "g" Hu) as [Hmean1' _].
  destruct (Hmean2 "g" Hu) as [_ Hmean2'].
  split; [|split].
  - split; [exact (Hm1 eq_refl)|].
    split; [exact (Hm2 eq_refl)|].
    split; [exact (Hs1 eq_refl)|exact (Hs2 eq_refl)].
  - split; [exact (Hmean1' eq_refl)|].
    split; [exact (Hmean2' eq_refl)|].
    split; [exact (Hsigma1 eq_refl)|exact (Hsigma2 eq_refl)].
  - split_and!; vm_compute; reflexivity.
Defined.

(** C4 on the examples: the plot-scale string "linear" with the distances
    present, the distance type "foo" without them, and the string
    "loglog". *)
Lemma plot_scale_assertion_witness :
  DistanceIMTTrellis._build_plot
    (ex_trellis [ex_gmpe_a] ex_dctx "rjb" "linear") "PGA" ex_table ex_plot_state
  = (reset_lists ex_plot_state, Raise AssertionError)
  /\ DistanceSigmaIMTTrellis._build_plot
       (ex_trellis [ex_gmpe_a] ex_dctx "foo" "linear") "PGA" ex_table ex_plot_state
     = (reset_lists ex_plot_state, Raise (AttributeError "foo"))
  /\ (DistanceSigmaIMTTrellis._build_plot
        (ex_trellis [ex_gmpe_a] ex_dctx "rjb" "loglog") "PGA" ex_table
        ex_plot_state).2 <> Raise AssertionError.
Proof.
  split; [|split].
  - apply (proj1 (plot_scale_assertion
                    (ex_trellis [ex_gmpe_a] ex_dctx "rjb" "linear")
                    "PGA" ex_table ex_plot_state) [1; 10; 50; 100]%Q);
      [reflexivity|discriminate|discriminate].
  - apply (proj1 (proj2 (plot_scale_assertion
                    (ex_trellis [ex_gmpe_a] ex_dctx "foo" "linear")
                    "PGA" ex_table ex_plot_state))).
    reflexivity.
  - apply (proj2 (proj2 (plot_scale_assertion
                    (ex_trellis [ex_gmpe_a] ex_dctx "rjb" "loglog")
                    "PGA" ex_table ex_plot_state))).
    left. reflexivity.
Defined.

(** C7 on the examples: ascending distances 1, 10, 50, 100. *)
Lemma xlim_first_last_witness :
  exists dv lo hi,
    getattr ex_dctx "rjb" = Ok dv
    /\ head dv = Some lo /\ last dv = Some hi
    /\ ax_xlim_request (ax (DistanceIMTTrellis._build_plot
                      (ex_trellis [ex_gmpe_a] ex_dctx "rjb" "loglog") "PGA"
                      ex_table ex_plot_state).1) = Some (lo, hi)
    /\ (Sorted Qle dv -> forall d, d ∈ dv -> (lo <= d)%Q /\ (d <= hi)%Q).
Proof.
  apply (xlim_first_last (ex_trellis [ex_gmpe_a] ex_dctx "rjb" "loglog")
           "PGA" ex_table ex_plot_state).
  - discriminate.
  - left. vm_compute. reflexivity.
Defined.

(** C8 on the examples: Joyner-Boore distance, "SA(0.2)" and "PGA". *)
Lemma label_policy_witness :
  DistanceSigmaIMTTrellis._set_labels
    (ex_trellis [ex_gmpe_a] ex_dctx "rjb" "loglog") "PGA" ex_plot_state
  = (labelled "Joyner-Boore Dist. (km)" "Total Std. Dev." ex_plot_state, Ok tt)
  /\ DistanceIMTTrellis._set_labels
       (ex_trellis [ex_gmpe_a] ex_dctx "rjb" "loglog") "SA(0.2)" ex_plot_state
     = (labelled "Joyner-Boore Dist. (km)" "Median SA(0.2) (g)" ex_plot_state, Ok tt)
  /\ DistanceIMTTrellis._set_labels
       (ex_trellis [ex_gmpe_a] ex_dctx "rjb" "loglog") "PGV" ex_plot_state
     = (labelled "Joyner-Boore Dist. (km)" "Median PGV (cm/s)" ex_plot_state, Ok tt)
  /\ ax_ylabel (ax (DistanceSigmaIMTTrellis._build_plot
                      (ex_trellis [ex_gmpe_a] ex_dctx "rjb" "loglog") "PGA"
                      ex_table ex_plot_state).1)
     = Some ("Total Std. Dev.", 16).
Proof.
  split; [|split; [|split]].
  - apply (proj1 (label_policy (ex_trellis [ex_gmpe_a] ex_dctx "rjb" "loglog")
                    "PGA" "Joyner-Boore Dist." eq_refl)).
  - apply (proj1 (proj2 (label_policy
                    (ex_trellis [ex_gmpe_a] ex_dctx "rjb" "loglog")
                    "SA(0.2)" "Joyner-Boore Dist." eq_refl)) "g").
    + exists "", "0.2)". reflexivity.
    + reflexivity.
  - apply (proj1 (proj2 (proj2 (label_policy
                    (ex_trellis [ex_gmpe_a] ex_dctx "rjb" "loglog")
                    "PGV" "Joyner-Boore Dist." eq_refl))) "cm/s").
    + intros H. apply str_contains_spec in H. discriminate.
    + reflexivity.
  - apply (proj1 (proj2 (proj2 (proj2 (label_policy
                    (ex_trellis [ex_gmpe_a] ex_dctx "rjb" "loglog")
                    "PGA" "Joyner-Boore Dist." eq_refl)))) ex_table ex_plot_state).
    + discriminate.
    + vm_compute. reflexivity.
Defined.


(** C10 on the examples: the second row of the PGA array replaced by
    zeros. *)
Lemma only_first_row_plotted_witness :
  DistanceIMTTrellis._build_plot
    (ex_trellis [ex_gmpe_a] ex_dctx "rjb" "loglog") "PGA" ex_table_other_rows
    ex_plot_state
  = DistanceIMTTrellis._build_plot
      (ex_trellis [ex_gmpe_a] ex_dctx "rjb" "loglog") "PGA" ex_table ex_plot_state
  /\ DistanceSigmaIMTTrellis._build_plot
       (ex_trellis [ex_gmpe_a] ex_dctx "rjb" "loglog") "PGA" ex_table_other_rows
       ex_plot_state
     = DistanceSigmaIMTTrellis._build_plot
         (ex_trellis [ex_gmpe_a] ex_dctx "rjb" "loglog") "PGA" ex_table
         ex_plot_state.
Proof.
  apply (proj2 (proj2 (only_first_row_plotted
           (ex_trellis [ex_gmpe_a] ex_dctx "rjb" "loglog") "PGA" ex_table
           ex_plot_state)) ex_table_other_rows).
  intros g Hg. simpl in Hg. split_elem Hg. vm_compute. reflexivity.
Defined.



(** C6 on the examples: GmpeA, the only GMPE of its class name in the list,
    and PGA, two magnitudes and four sites. *)
Lemma supported_pair_entry_witness :
  exists t rows,
    (DistanceSigmaIMTTrellis.get_ground_motion_values ex_from_string
       (ex_trellis [ex_gmpe_a; ex_gmpe_b] ex_dctx "rjb" "loglog")
       ex_collector_state).2 = Ok t
    /\ table_getitem t "GmpeA" "PGA" = Ok (NDArray rows)
    /\ length rows = 2
    /\ Forall (fun row => length row = 4) rows.
Proof.
  assert (Hlast : last_of_its_class ex_gmpe_a [ex_gmpe_a; ex_gmpe_b]).
  { exists [], [ex_gmpe_b]. split; [reflexivity|].
    intros g' Hg'. split_elem Hg'. discriminate. }
  assert (Hin : "PGA" ∈ ["PGA"; "PGV"]) by (apply elem_of_cons; by left).
  assert (Hsup : forall rct, rct ∈ [6; 7]%Q ->
            ~ row_unsupported ex_from_string
                (ex_trellis [ex_gmpe_a; ex_gmpe_b] ex_dctx "rjb" "loglog")
                ex_gmpe_a "PGA" rct).
  { intros rct Hrct (e & He & Hk). split_elem Hrct;
      vm_compute in He; discriminate. }
  destruct (supported_pair_entry ex_from_string
              (ex_trellis [ex_gmpe_a; ex_gmpe_b] ex_dctx "rjb" "loglog")
              ex_gmpe_a "PGA" Hlast Hin Hsup) as [Hret Hentry].
  destruct (Hret) with (s := ex_collector_state) as [t Ht].
  { intros g' i' Hg' Hi' rct Hrct. simpl in Hg', Hi', Hrct.
    split_elem Hg'; split_elem Hi'; split_elem Hrct;
      try (left; eexists _, _; split; reflexivity);
      right; eexists; split; reflexivity. }
  destruct (Hentry ex_collector_state t Ht) as (rows & Hrows & Hlen & Hw & _).
  exists t, rows. repeat split; assumption.
Defined.

(** * The further properties on the example inputs *)

(** X1 on the examples. *)
Lemma lists_after_return_witness :
  labels (DistanceIMTTrellis._build_plot
            (ex_trellis [ex_gmpe_a] ex_dctx "rjb" "loglog") "PGA" ex_table
            ex_plot_state).1 = ["GmpeA"]
  /\ label <$> lines (DistanceIMTTrellis._build_plot
                        (ex_trellis [ex_gmpe_a] ex_dctx "rjb" "loglog") "PGA"
                        ex_table ex_plot_state).1 = ["GmpeA"].
Proof.
  pose proof (lists_after_return
    (ex_trellis [ex_gmpe_a] ex_dctx "rjb" "loglog") "PGA" ex_table ex_plot_state
    (DistanceIMTTrellis._build_plot
       (ex_trellis [ex_gmpe_a] ex_dctx "rjb" "loglog") "PGA" ex_table
       ex_plot_state).1) as H.
  assert (Hrun : DistanceIMTTrellis._build_plot
            (ex_trellis [ex_gmpe_a] ex_dctx "rjb" "loglog") "PGA" ex_table
            ex_plot_state
          = ((DistanceIMTTrellis._build_plot
                (ex_trellis [ex_gmpe_a] ex_dctx "rjb" "loglog") "PGA" ex_table
                ex_plot_state).1, Ok tt)) by (vm_compute; reflexivity).
  destruct (H (or_introl Hrun)) as (Hl & _ & Hlab & _).
  split; [exact Hl|exact Hlab].
Defined.

(** X3 on the examples: no GMPE. *)
Lemma no_gmpe_leaves_axes_witness :
  exists r,
    DistanceIMTTrellis._build_plot
      (ex_trellis [] ex_dctx "rjb" "loglog") "PGA" ex_table ex_plot_state
    = (mkPlotState [] [] (ax ex_plot_state), r)
    /\ DistanceSigmaIMTTrellis._build_plot
         (ex_trellis [] ex_dctx "rjb" "loglog") "PGA" ex_table ex_plot_state
       = (mkPlotState [] [] (ax ex_plot_state), r)
    /\ (r = Ok tt <->
        is_Some (dctx (ex_trellis [] ex_dctx "rjb" "loglog")
                   !! distance_type (ex_trellis [] ex_dctx "rjb" "loglog"))
        /\ (plot_type (ex_trellis [] ex_dctx "rjb" "loglog") = "loglog"
            \/ plot_type (ex_trellis [] ex_dctx "rjb" "loglog") = "semilogy")).
Proof.
  exact (no_gmpe_leaves_axes (ex_trellis [] ex_dctx "rjb" "loglog") "PGA"
           ex_table ex_plot_state eq_refl).
Defined.


(** X6 on the examples: the table collected for GmpeA, asked for GmpeB and
    for an intensity measure that was not collected. *)
Lemma missing_table_entry_witness :
  DistanceIMTTrellis._build_plot
    (ex_trellis [ex_gmpe_b] ex_dctx "rjb" "loglog") "PGA" ex_table ex_plot_state
  = (mkPlotState ["GmpeB"] [] (ax ex_plot_state), Raise (KeyError "GmpeB"))
  /\ DistanceSigmaIMTTrellis._build_plot
       (ex_trellis [ex_gmpe_a] ex_dctx "rjb" "loglog") "SA(0.2)" ex_table
       ex_plot_state
     = (mkPlotState ["GmpeA"] [] (ax ex_plot_state), Raise (KeyError "SA(0.2)")).
Proof.
  split.
  - assert (Hin : ex_gmpe_b ∈ [ex_gmpe_b]) by (apply elem_of_cons; by left).
    assert (Hmiss : table_getitem ex_table (class_name ex_gmpe_b) "PGA"
                    = Raise (KeyError (class_name ex_gmpe_b)))
      by (vm_compute; reflexivity).
    pose proof (proj2 (missing_table_entry
      (ex_trellis [ex_gmpe_b] ex_dctx "rjb" "loglog") "PGA" ex_table
      ex_plot_state ex_gmpe_b Hin (or_introl Hmiss))
      [] [1; 10; 50; 100]%Q) as H.
    assert (Hdv : getattr (dctx (ex_trellis [ex_gmpe_b] ex_dctx "rjb" "loglog"))
                    "rjb" = Ok [1; 10; 50; 100]%Q) by (vm_compute; reflexivity).
    destruct (H Hdv (or_introl eq_refl) eq_refl) as [Hm _].
    rewrite Hm. vm_compute. reflexivity.
  - assert (Hin : ex_gmpe_a ∈ [ex_gmpe_a]) by (apply elem_of_cons; by left).
    assert (Hmiss : table_getitem ex_table (class_name ex_gmpe_a) "SA(0.2)"
                    = Raise (KeyError "SA(0.2)"))
      by (vm_compute; reflexivity).
    pose proof (proj2 (missing_table_entry
      (ex_trellis [ex_gmpe_a] ex_dctx "rjb" "loglog") "SA(0.2)" ex_table
      ex_plot_state ex_gmpe_a Hin (or_intror Hmiss))
      [] [1; 10; 50; 100]%Q) as H.
    assert (Hdv : getattr (dctx (ex_trellis [ex_gmpe_a] ex_dctx "rjb" "loglog"))
                    "rjb" = Ok [1; 10; 50; 100]%Q) by (vm_compute; reflexivity).
    destruct (H Hdv (or_introl eq_refl) eq_refl) as [_ Hs].
    rewrite Hs. vm_compute. reflexivity.
Defined.

(** X7 on the examples: "loglog" against "semilogy". *)
Lemma plot_scale_keeps_data_witness :
  forget_methods
    (DistanceIMTTrellis._build_plot
       (with_plot_type (ex_trellis [ex_gmpe_a] ex_dctx "rjb" "loglog") "loglog")
       "PGA" ex_table ex_plot_state).1
  = forget_methods
      (DistanceIMTTrellis._build_plot
         (with_plot_type (ex_trellis [ex_gmpe_a] ex_dctx "rjb" "loglog") "semilogy")
         "PGA" ex_table ex_plot_state).1.
Proof.
  pose proof (plot_scale_keeps_data
    (ex_trellis [ex_gmpe_a] ex_dctx "rjb" "loglog") "loglog" "semilogy" "PGA"
    ex_table ex_plot_state (or_introl eq_refl) (or_intror eq_refl))
    as [[_ H] _].
  exact H.
Defined.

(** X9 on the examples: two GMPEs, two intensity measures, no rupture
    context. *)
Lemma no_rupture_context_witness :
  exists t,
    (DistanceSigmaIMTTrellis.get_ground_motion_values ex_from_string
       ex_trellis_no_rupture ex_collector_state).2 = Ok t
    /\ calls (DistanceSigmaIMTTrellis.get_ground_motion_values ex_from_string
                ex_trellis_no_rupture ex_collector_state).1 = []
    /\ table_getitem t "GmpeB" "XYZ" = Ok (NDArray []).
Proof.
  destruct (no_rupture_context ex_from_string ex_trellis_no_rupture
              ex_collector_state eq_refl) as (t & Ht & Hc & Hentry & _).
  exists t. split_and!; [exact Ht|exact Hc|].
  apply (Hentry ex_gmpe_b "XYZ").
  - apply elem_of_cons. right. apply elem_of_cons. by left.
  - apply elem_of_cons. right. apply elem_of_cons. by left.
Defined.

(** X10 on the examples: the string "XYZ", which the parser rejects. *)
Lemma parser_key_error_witness :
  table_getitem ex_table_xyz "GmpeA" "XYZ" = Ok EmptyList.
Proof.
  assert (Hne : rctx ex_trellis_xyz <> []) by discriminate.
  pose proof (proj1 (parser_key_error ex_from_string ex_trellis_xyz "XYZ"
    (KeyError "XYZ") ex_collector_state eq_refl eq_refl Hne)
    ex_table_xyz ex_gmpe_a) as H.
  apply H.
  - vm_compute. reflexivity.
  - apply elem_of_cons. by left.
  - apply elem_of_cons. right. apply elem_of_cons. by left.
Defined.

(** X11 on the examples: GmpeD returns no array, GmpeE returns three values
    for four sites. *)
Lemma store_failures_propagate_witness :
  (DistanceSigmaIMTTrellis.get_ground_motion_values ex_from_string
     (ex_trellis [ex_gmpe_d] ex_dctx "rjb" "loglog") ex_collector_state).2
  = Raise IndexError
  /\ (DistanceSigmaIMTTrellis.get_ground_motion_values ex_from_string
        (ex_trellis [ex_gmpe_e] ex_dctx "rjb" "loglog") ex_collector_state).2
     = Raise ValueError.
Proof.
  split.
  - pose proof (proj1 (store_failures_propagate ex_from_string
      (ex_trellis [ex_gmpe_d] ex_dctx "rjb" "loglog") [] [] ex_gmpe_d
      [] ["PGV"] "PGA" "PGA" 0 6%Q [6; 6; 6; 6]%Q [] ex_collector_state
      eq_refl eq_refl
      ltac:(intros g' i' Hg'; by apply elem_of_nil in Hg')
      ltac:(intros i' Hi'; by apply elem_of_nil in Hi')
      eq_refl ltac:(intros j r Hj; lia) eq_refl eq_refl)) as H.
    exact (H eq_refl).
  - pose proof (proj2 (store_failures_propagate ex_from_string
      (ex_trellis [ex_gmpe_e] ex_dctx "rjb" "loglog") [] [] ex_gmpe_e
      [] ["PGV"] "PGA" "PGA" 0 6%Q [6; 6; 6; 6]%Q [[1 # 2; 1 # 2; 1 # 2]%Q]
      ex_collector_state eq_refl eq_refl
      ltac:(intros g' i' Hg'; by apply elem_of_nil in Hg')
      ltac:(intros i' Hi'; by apply elem_of_nil in Hi')
      eq_refl ltac:(intros j r Hj; lia) eq_refl eq_refl)) as H.
    apply (H [1 # 2; 1 # 2; 1 # 2]%Q [] eq_refl); simpl; lia.
Defined.

(** X12 on the examples: GmpeA and GmpeB. *)
Lemma table_keys_witness :
  od_keys ex_table_ab = ["GmpeA"; "GmpeB"]
  /\ forall n d, od_lookup n ex_table_ab = Some d ->
       dom d = list_to_set ["PGA"; "PGV"].
Proof.
  assert (Hrun : (DistanceSigmaIMTTrellis.get_ground_motion_values ex_from_string
                    (ex_trellis [ex_gmpe_a; ex_gmpe_b] ex_dctx "rjb" "loglog")
                    ex_collector_state).2 = Ok ex_table_ab)
    by (vm_compute; reflexivity).
  destruct (table_keys ex_from_string
              (ex_trellis [ex_gmpe_a; ex_gmpe_b] ex_dctx "rjb" "loglog")
              ex_collector_state ex_table_ab Hrun) as (_ & _ & Hord & Hdom).
  split; [|exact Hdom]. apply Hord. simpl.
  apply NoDup_cons. split.
  - intros H. apply list_elem_of_singleton in H. discriminate.
  - apply NoDup_singleton.
Defined.

(** X13 on the examples: GmpeA and PGA, collected with GmpeB and PGV and
    collected alone. *)
Lemma entry_of_pair_alone_witness :
  exists t1,
    (DistanceSigmaIMTTrellis.get_ground_motion_values ex_from_string
       (with_request (ex_trellis [ex_gmpe_a; ex_gmpe_b] ex_dctx "rjb" "loglog")
          [ex_gmpe_a] ["PGA"]) ex_collector_state).2 = Ok t1
    /\ table_getitem ex_table_ab "GmpeA" "PGA" = table_getitem t1 "GmpeA" "PGA"
    /\ exists e, table_getitem ex_table_ab "GmpeA" "PGA" = Ok e.
Proof.
  assert (Hrun : (DistanceSigmaIMTTrellis.get_ground_motion_values ex_from_string
                    (ex_trellis [ex_gmpe_a; ex_gmpe_b] ex_dctx "rjb" "loglog")
                    ex_collector_state).2 = Ok ex_table_ab)
    by (vm_compute; reflexivity).
  assert (Hlast : last_of_its_class ex_gmpe_a [ex_gmpe_a; ex_gmpe_b]).
  { exists [], [ex_gmpe_b]. split; [reflexivity|].
    intros g' Hg'. apply list_elem_of_singleton in Hg'. subst. discriminate. }
  assert (Hin : "PGA" ∈ ["PGA"; "PGV"]) by (apply elem_of_cons; by left).
  exact (entry_of_pair_alone ex_from_string
           (ex_trellis [ex_gmpe_a; ex_gmpe_b] ex_dctx "rjb" "loglog")
           ex_collector_state ex_collector_state ex_table_ab ex_gmpe_a "PGA"
           Hrun Hlast Hin).
Defined.

